(** * doge-scrape.py: fetch, concatenate, outer-join, write

    A shallow embedding of [src/doge-scrape.py] and the properties of its
    pipeline.  The script is Python on top of pandas, requests and zipfile.
    Its own functions ([fetch_usaspending_data], [fetch_doge_contracts],
    [merge_data], [main]) are embedded statement by statement in a small
    monad with console/file events, exceptions and the local variables of
    the running function.  The library calls it makes are embedded as
    follows:

    - [requests.get], [zipfile.ZipFile], [pd.read_csv], the JSON decoder
      behind [response.json()] and [pd.DataFrame(data)] are fields of an
      environment record [Env], and [z.open] is a field of the archive:
      each either raises or returns a value;
    - [pd.concat(.., ignore_index=True)] and [pd.merge(.., how='outer')]
      are embedded as functions on frames ([pd_concat], [pd_merge]).
      Cells hold values of a type [scalar] with decidable equality, [None]
      being the missing value (NaN/None);
    - what [pd.merge] decides from the dtypes of the columns is given by a
      class [Dtypes]: whether it accepts the two key columns or raises
      [ValueError], the common dtype under which it compares the keys, the
      conversion of a column that has to hold a missing value (int64 to
      float64, bool to object), and the order in which it sorts the keys.
      [Samples] has two instances: tables of strings, and tables of
      integers, whole floats and strings.

    [pd.merge] raises when a key is not a column label, when more than one
    column carries a key label, when the dtypes of the key columns are
    incompatible and when the suffixes [_x] and [_y] turn labels into
    duplicates.  [merge_data] guards against the first only, and calls
    [pd.merge] outside any [try].

    [pd.merge(.., how='outer')] returns its rows grouped by key, the keys
    in ascending order and the missing key last; within a group the rows
    of the left frame are in their order, each with the rows of the right
    frame in theirs. *)

From stdpp Require Import base option list strings pretty sorting.

Set Default Proof Using "Type".
#[local] Set Warnings "-clear-no-such-hyp".

(** ** Exceptions *)

(** The exception classes the script tells apart, with [str(e)]. *)
Inductive exn : Type :=
  | RequestException (msg : string)   (* requests.exceptions.RequestException *)
  | BadZipFile (msg : string)         (* zipfile.BadZipFile *)
  | OtherException (msg : string).    (* any other subclass of Exception *)

Definition exn_str (e : exn) : string :=
  match e with
  | RequestException m | BadZipFile m | OtherException m => m
  end.

(** ** Frames *)

(** A cell is a scalar or the missing value (NaN/None). *)
Abbreviation cell := option.

Section Frames.
Context {scalar : Type} `{!EqDecision scalar}.

(** A frame: column labels and rows; a row carries its index label and
    one cell per column. *)
Record DataFrame : Type := mkDataFrame {
  columns : list string;
  rows : list (nat * list (cell scalar))
}.

(** [pd.DataFrame()] *)
Definition empty_frame : DataFrame := mkDataFrame [] [].

(** [len(df)] *)
Definition len (df : DataFrame) : nat := length (rows df).

(** [df.index] and the cell matrix *)
Definition index (df : DataFrame) : list nat := fst <$> rows df.
Definition cells (df : DataFrame) : list (list (cell scalar)) :=
  snd <$> rows df.

(** [df.empty]: some axis has length zero. *)
Definition empty (df : DataFrame) : bool :=
  bool_decide (rows df = []) || bool_decide (columns df = []).

(** Every row has one cell per column. *)
Definition rectangular (df : DataFrame) : Prop :=
  Forall (λ r, length r = length (columns df)) (cells df).

(** Position of a label among the columns ([columns.get_loc]). *)
Definition get_loc (c : string) (cols : list string) : option nat :=
  fst <$> list_find (λ c', c' = c) cols.

(** The cell of a row at a position; missing when out of range. *)
Definition at_pos (r : list (cell scalar)) (i : nat) : cell scalar :=
  default None (r !! i).

(** The column of key cells of a frame. *)
Definition key_column (k : nat) (df : DataFrame) : list (cell scalar) :=
  (λ r, at_pos r k) <$> cells df.

(** ** pd.concat(frames, ignore_index=True) *)

(** Union of the column labels in order of first appearance. *)
Definition add_label (acc : list string) (c : string) : list string :=
  if decide (c ∈ acc) then acc else acc ++ [c].
Definition union_columns (dfs : list DataFrame) : list string :=
  foldl add_label [] (dfs ≫= columns).

(** A row of a frame with columns [from], laid out under columns [to]. *)
Definition reindex (to from : list string) (r : list (cell scalar))
    : list (cell scalar) :=
  (λ c, match get_loc c from with
        | Some i => at_pos r i
        | None => None
        end) <$> to.

Definition stacked (dfs : list DataFrame) : list (list (cell scalar)) :=
  dfs ≫= (λ df, reindex (union_columns dfs) (columns df) <$> cells df).

(** Rows numbered 0..N-1 ([RangeIndex]). *)
Definition range_index (rs : list (list (cell scalar)))
    : list (nat * list (cell scalar)) :=
  imap (λ n r, (n, r)) rs.

(** Raises on an empty list of frames, as pandas does. *)
Definition pd_concat (dfs : list DataFrame) : option DataFrame :=
  match dfs with
  | [] => None
  | _ => Some (mkDataFrame (union_columns dfs) (range_index (stacked dfs)))
  end.

End Frames.

Arguments DataFrame : clear implicits.

(** ** Column dtypes *)

(** A pandas column has a dtype, which the cells of a frame do not
    record.  What [pd.merge] makes of the dtypes of its columns:

    - [mergeable lk rk]: it accepts the key columns [lk] and [rk]; when
      their dtypes are incompatible (int64 against strings, say) it
      raises [ValueError] instead;
    - [common lk rk x]: the key [x] under the common dtype of the two key
      columns, under which keys are compared (an int64 key joined to a
      float64 column is compared as a float64);
    - [promote col x]: the value [x] of the column [col] once the column
      has to hold a missing value: in a column of dtype int64 it becomes
      the nearest float64, in a column of dtype bool an object; in a
      column of strings or of float64 it stays as it is;
    - [key_le x y]: [x] is sorted before [y] or equal to it;
    - [dtype col]: the name of the dtype of a column, as error messages
      print it. *)
Class Dtypes (scalar : Type) : Type := {
  dtype : list (cell scalar) → string;
  mergeable : list (cell scalar) → list (cell scalar) → bool;
  common : list (cell scalar) → list (cell scalar) → scalar → scalar;
  promote : list (cell scalar) → scalar → scalar;
  key_le : scalar → scalar → bool
}.

(** ** pd.merge(left, right, left_on=.., right_on=.., how='outer') *)

Section Join.
Context {scalar : Type} `{!EqDecision scalar} `{!Dtypes scalar}.

Local Abbreviation DataFrame := (DataFrame scalar).

(** Positions, counted from [j], of the keys equal to [k].  Missing keys
    are equal to each other: pandas puts all of them into one group. *)
Fixpoint positions (k : cell scalar) (keys : list (cell scalar)) (j : nat)
    : list nat :=
  match keys with
  | [] => []
  | k' :: keys' =>
      if decide (k' = k) then j :: positions k keys' (S j)
      else positions k keys' (S j)
  end.

(** The keys of a column that are not missing. *)
Definition present (keys : list (cell scalar)) : list scalar := omap id keys.

(** The groups of the join: the keys of the two columns, each once, in
    ascending order, and then the missing key if a row has it. *)
Definition key_groups (lkeys rkeys : list (cell scalar))
    : list (cell scalar) :=
  (Some <$> merge_sort (λ x y, Is_true (key_le x y))
              (remove_dups (present (lkeys ++ rkeys))))
  ++ (if decide (None ∈ lkeys ++ rkeys) then [None] else []).

(** The output entries of the group of key [k], each a left and a right
    row position: the left rows in order, each with every right row in
    order; or the rows of one side alone when the other has none. *)
Definition group_entries (lkeys rkeys : list (cell scalar)) (k : cell scalar)
    : list (option nat * option nat) :=
  match positions k lkeys 0, positions k rkeys 0 with
  | ps, [] => (λ i, (Some i, None)) <$> ps
  | [], qs => (λ j, (None, Some j)) <$> qs
  | ps, qs => i ← ps; (λ j, (Some i, Some j)) <$> qs
  end.

(** The left and right indexers of the join, as a list of pairs. *)
Definition full_outer_join (lkeys rkeys : list (cell scalar))
    : list (option nat * option nat) :=
  key_groups lkeys rkeys ≫= group_entries lkeys rkeys.

(** Some output row has no left (right) row. *)
Definition lacks_left (entries : list (option nat * option nat)) : bool :=
  bool_decide (None ∈ entries.*1).
Definition lacks_right (entries : list (option nat * option nat)) : bool :=
  bool_decide (None ∈ entries.*2).

(** A key column as the join compares it. *)
Definition compared (lk rk keys : list (cell scalar)) : list (cell scalar) :=
  fmap (M:=option) (common lk rk) <$> keys.

Definition left_keys (left right : DataFrame) (kl kr : nat)
    : list (cell scalar) :=
  compared (key_column kl left) (key_column kr right) (key_column kl left).
Definition right_keys (left right : DataFrame) (kl kr : nat)
    : list (cell scalar) :=
  compared (key_column kl left) (key_column kr right) (key_column kr right).

(** A key of either frame as the join compares it. *)
Definition as_key (left right : DataFrame) (kl kr : nat) (k : cell scalar)
    : cell scalar :=
  common (key_column kl left) (key_column kr right) <$> k.

(** The indexers of the join of two frames on the keys at positions [kl]
    and [kr]. *)
Definition indexers (left right : DataFrame) (kl kr : nat)
    : list (option nat * option nat) :=
  full_outer_join (left_keys left right kl kr) (right_keys left right kl kr).

(** When both keys carry the same label the output has one key column, in
    the place of the left key: the right key column is dropped. *)
Inductive key_layout : Type :=
  | BothKeys           (* labels differ: both key columns are kept *)
  | SharedKey.         (* same label: one key column *)

Definition layout_of (left_on right_on : string) : key_layout :=
  if decide (left_on = right_on) then SharedKey else BothKeys.

Definition nulls (n : nat) : list (cell scalar) := replicate n None.

(** The cells of a row of a frame in the output: promoted, each as its
    column is, when the columns of the frame have to hold a missing
    value there. *)
Definition stored (missing : bool) (df : DataFrame) (r : list (cell scalar))
    : list (cell scalar) :=
  if missing then imap (λ c x, promote (key_column c df) <$> x) r else r.

(** The cells of one output row. [kl] and [kr] are the positions of the
    keys.  The columns of a frame are promoted when some output row has
    no row of that frame.  The single key column of [SharedKey] is the
    left one; when some output row has no left row it holds the key of
    the row from whichever side has it, under the common dtype. *)
Definition join_row (lay : key_layout) (kl kr : nat)
    (left right : DataFrame) (e : option nat * option nat)
    : list (cell scalar) :=
  let entries := indexers left right kl kr in
  let l := e.1 ≫= (cells left !!.) in
  let r := e.2 ≫= (cells right !!.) in
  let lp := from_option (stored (lacks_left entries) left)
                        (nulls (length (columns left))) l in
  let rp := from_option (stored (lacks_right entries) right)
                        (nulls (length (columns right))) r in
  let key := match l, r with
             | Some l, _ => at_pos l kl
             | None, Some r => at_pos r kr
             | None, None => None
             end in
  match lay with
  | BothKeys => lp ++ rp
  | SharedKey =>
      (if lacks_left entries then <[kl := as_key left right kl kr key]> lp
       else lp)
      ++ delete kr rp
  end.

(** Labels present on both sides get the suffixes [_x] and [_y]. *)
Definition with_suffix (others : list string) (suffix : string)
    (c : string) : string :=
  if decide (c ∈ others) then c +:+ suffix else c.

(** The labels of the right frame that the output keeps. *)
Definition kept (lay : key_layout) (kr : nat) (rcols : list string)
    : list string :=
  match lay with SharedKey => delete kr rcols | BothKeys => rcols end.

Definition left_labels (lay : key_layout) (kr : nat)
    (lcols rcols : list string) : list string :=
  with_suffix (kept lay kr rcols) "_x" <$> lcols.

Definition right_labels (lay : key_layout) (kr : nat)
    (lcols rcols : list string) : list string :=
  with_suffix lcols "_y" <$> kept lay kr rcols.

Definition join_columns (lay : key_layout) (kr : nat)
    (lcols rcols : list string) : list string :=
  left_labels lay kr lcols rcols ++ right_labels lay kr lcols rcols.

(** [labels.duplicated()]: whether a label occurs before its position. *)
Definition duplicated (labels : list string) : list bool :=
  imap (λ p c, bool_decide (c ∈ take p labels)) labels.

(** The labels that the suffixes turn into duplicates: those of [renamed]
    that occur before their position where the label of [labels] did
    not. *)
Definition suffix_duplicates (labels renamed : list string) : list string :=
  omap (λ x : string * (bool * bool),
          if x.2.1 && negb x.2.2 then Some x.1 else None)
       (zip renamed (zip (duplicated renamed) (duplicated labels))).

(** A label that more than one column carries. *)
Definition ambiguous (c : string) (cols : list string) : bool :=
  bool_decide (1 < length (filter (λ c', c' = c) cols)).

(** The join proper, for keys at positions [kl] and [kr]. *)
Definition outer_join (left right : DataFrame) (lay : key_layout)
    (kl kr : nat) : DataFrame :=
  mkDataFrame
    (join_columns lay kr (columns left) (columns right))
    (range_index (join_row lay kl kr left right <$> indexers left right kl kr)).

(** The labels among those of the output that the suffixes turn into
    duplicates. *)
Definition clashes (lay : key_layout) (kr : nat) (lcols rcols : list string)
    : list string :=
  suffix_duplicates lcols (left_labels lay kr lcols rcols)
  ++ suffix_duplicates (kept lay kr rcols) (right_labels lay kr lcols rcols).

(** The values of a key: raises [KeyError] when the key is not a column
    label and [ValueError] when more than one column carries it. *)
Definition key_loc (c : string) (df : DataFrame) : exn + nat :=
  match get_loc c (columns df) with
  | None => inl (OtherException ("'" +:+ c +:+ "'"))
  | Some k =>
      if ambiguous c (columns df)
      then inl (OtherException ("The column label '" +:+ c +:+ "' is not unique."))
      else inr k
  end.

(** Looks up the right key, then the left key; raises [ValueError] when
    the dtypes of the two key columns are incompatible, and [MergeError]
    (a [ValueError] too) when the suffixes turn labels into duplicates. *)
Definition pd_merge (left right : DataFrame) (left_on right_on : string)
    : exn + DataFrame :=
  match key_loc right_on right with
  | inl e => inl e
  | inr kr =>
      match key_loc left_on left with
      | inl e => inl e
      | inr kl =>
          let lay := layout_of left_on right_on in
          if negb (mergeable (key_column kl left) (key_column kr right)) then
            inl (OtherException
                   ("You are trying to merge on " +:+ dtype (key_column kl left)
                    +:+ " and " +:+ dtype (key_column kr right)
                    +:+ " columns for key '" +:+ left_on
                    +:+ "'. If you wish to proceed you should use pd.concat"))
          else
            match clashes lay kr (columns left) (columns right) with
            | [] => inr (outer_join left right lay kl kr)
            | dups =>
                inl (OtherException
                       ("Passing 'suffixes' which cause duplicate columns {"
                        +:+ String.concat ", "
                              ((λ c, "'" +:+ c +:+ "'") <$> remove_dups dups)
                        +:+ "} is not allowed."))
            end
      end
  end.

(** [pd.merge] accepts the two frames with their keys at positions [kl]
    and [kr]: each key label is carried by one column, the dtypes of the
    key columns are compatible, and no suffix makes a duplicate. *)
Definition accepts (left right : DataFrame) (left_on right_on : string)
    (kl kr : nat) : bool :=
  negb (ambiguous left_on (columns left))
  && negb (ambiguous right_on (columns right))
  && mergeable (key_column kl left) (key_column kr right)
  && bool_decide (clashes (layout_of left_on right_on) kr
                          (columns left) (columns right) = []).

(** *** Counting the rows of the join *)

(** How many of [keys] equal [k]. *)
Definition occurrences (k : cell scalar) (keys : list (cell scalar)) : nat :=
  length (positions k keys 0).

(** How many of [keys] occur among [others], and how many do not. *)
Definition matched (others keys : list (cell scalar)) : nat :=
  length (filter (.∈ others) keys).
Definition unmatched (others keys : list (cell scalar)) : nat :=
  length (filter (.∉ others) keys).

(** The number of pairs of a left and a right row with equal keys. *)
Definition pairs (lkeys rkeys : list (cell scalar)) : nat :=
  sum_list_with (λ k, occurrences k rkeys) lkeys.

(** No key of the left frame is a key of the right frame. *)
Definition no_match (lkeys rkeys : list (cell scalar)) : Prop :=
  ∀ k, k ∈ lkeys → k ∉ rkeys.

(** No key is repeated on both sides: every key occurs at most once on
    the left or at most once on the right. *)
Definition one_side_unique (lkeys rkeys : list (cell scalar)) : Prop :=
  ∀ k, occurrences k lkeys ≤ 1 ∨ occurrences k rkeys ≤ 1.

(** The same entries listed by rows: those of each left row, then the
    right rows that no left row matches. *)
Definition left_entries (rkeys : list (cell scalar)) (i : nat) (k : cell scalar)
    : list (option nat * option nat) :=
  match positions k rkeys 0 with
  | [] => [(Some i, None)]
  | js => (λ j, (Some i, Some j)) <$> js
  end.

Definition right_entries (lkeys : list (cell scalar)) (j : nat) (k : cell scalar)
    : list (option nat * option nat) :=
  if decide (k ∈ lkeys) then [] else [(None, Some j)].

Definition by_rows (lkeys rkeys : list (cell scalar))
    : list (option nat * option nat) :=
  mjoin (imap (left_entries rkeys) lkeys)
  ++ mjoin (imap (right_entries lkeys) rkeys).

(** *** Reading a joined row *)

(** Row [l] of the left frame, and row [r] of the right frame, as an
    output row holds them. *)
Definition left_block (lay : key_layout) (kl kr : nat)
    (left right : DataFrame) (l : list (cell scalar)) : list (cell scalar) :=
  let missing := lacks_left (indexers left right kl kr) in
  match lay with
  | BothKeys => stored missing left l
  | SharedKey =>
      if missing
      then <[kl := as_key left right kl kr (at_pos l kl)]> (stored true left l)
      else l
  end.

Definition right_block (lay : key_layout) (kl kr : nat)
    (left right : DataFrame) (r : list (cell scalar)) : list (cell scalar) :=
  let r' := stored (lacks_right (indexers left right kl kr)) right r in
  match lay with
  | BothKeys => r'
  | SharedKey => delete kr r'
  end.

(** The cells in the place of the left frame in an output row that has
    no left row, the right row having key [key]; and those in the place
    of the right frame in an output row that has no right row. *)
Definition left_blank (lay : key_layout) (kl kr : nat)
    (left right : DataFrame) (key : cell scalar) : list (cell scalar) :=
  match lay with
  | BothKeys => nulls (length (columns left))
  | SharedKey =>
      <[kl := as_key left right kl kr key]> (nulls (length (columns left)))
  end.

Definition right_blank (lay : key_layout) (right : DataFrame)
    : list (cell scalar) :=
  match lay with
  | BothKeys => nulls (length (columns right))
  | SharedKey => nulls (length (columns right) - 1)
  end.

(** The key of an output entry, and the order of the keys: the missing
    key comes last. *)
Definition entry_key (lkeys rkeys : list (cell scalar))
    (e : option nat * option nat) : cell scalar :=
  match e with
  | (Some i, _) => default None (lkeys !! i)
  | (None, Some j) => default None (rkeys !! j)
  | (None, None) => None
  end.

Definition key_order (k1 k2 : cell scalar) : Prop :=
  match k1, k2 with
  | Some x, Some y => key_le x y
  | _, None => True
  | None, Some _ => False
  end.

End Join.

(** ** Effects: events and local variables *)

Definition bytes : Type := list Byte.byte.

(** [requests.Response] *)
Record Response : Type := mkResponse {
  status_code : nat;
  reason : string;
  url : string;
  content : bytes
}.

(** An open [zipfile.ZipFile]: [z.namelist()] and [z.open(name)]. *)
Record ZipFile : Type := mkZipFile {
  namelist : list string;
  zopen : string → exn + bytes
}.

Section Script.
Context {scalar : Type} `{!EqDecision scalar} {json : Type}.

Local Abbreviation DataFrame := (DataFrame scalar).

(** What the run does to the outside: console lines, HTTP requests and
    files written. *)
Inductive event : Type :=
  | Print (line : string)
  | Get (address : string)
  | ToCsv (path : string) (df : DataFrame).

(** The network and the parsers of the libraries. *)
Record Env : Type := mkEnv {
  requests_get : string → exn + Response;
  zipfile_ZipFile : bytes → exn + ZipFile;
  pd_read_csv : bytes → exn + DataFrame;
  json_loads : bytes → exn + json;
  pd_DataFrame : json → exn + DataFrame
}.

(** A computation over the local variables [S] of the running function:
    it emits events, updates the locals and raises or returns. The locals
    survive a raised exception, as Python's do. *)
Definition M (S A : Type) : Type := S → list event * S * (exn + A).

#[export] Instance M_ret {S} : MRet (M S) := λ A a s, ([], s, inr a).

#[export] Instance M_bind {S} : MBind (M S) := λ A B k m s,
  match m s with
  | (out, s', inl e) => (out, s', inl e)
  | (out, s', inr a) =>
      let '(out', s'', r) := k a s' in (out ++ out', s'', r)
  end.

Definition raise {S A} (e : exn) : M S A := λ s, ([], s, inl e).

Definition emit {S} (ev : event) : M S unit := λ s, ([ev], s, inr tt).

Definition print {S} (line : string) : M S unit := emit (Print line).

Definition lift {S A} (r : exn + A) : M S A := λ s, ([], s, r).

Definition gets {S A} (f : S → A) : M S A := λ s, ([], s, inr (f s)).

Definition modify {S} (f : S → S) : M S unit := λ s, ([], f s, inr tt).

(** [try: body except Exception as e: handler e] *)
Definition try_except {S A} (body : M S A) (handler : exn → M S A)
    : M S A := λ s,
  match body s with
  | (out, s', inl e) =>
      let '(out', s'', r) := handler e s' in (out ++ out', s'', r)
  | (out, s', inr a) => (out, s', inr a)
  end.

(** A call: the callee runs on fresh locals of its own. *)
Definition call {S S' A} (init : S') (f : M S' A) : M S A := λ s,
  let '(out, _, r) := f init in (out, s, r).

End Script.

Section Functions.
Context {scalar : Type} `{!EqDecision scalar} {json : Type}.

Local Abbreviation DataFrame := (DataFrame scalar).
Local Abbreviation Env := (@Env scalar json).
Local Abbreviation M := (@M scalar).
Local Abbreviation event := (@event scalar).

(** [for x in xs: body x] *)
Fixpoint for_each {S X} (xs : list X) (body : X → M S unit) : M S unit :=
  match xs with
  | [] => mret tt
  | x :: xs' => body x ;; for_each xs' body
  end.

(** [s.endswith(suffix)] *)
Definition endswith (s suffix : string) : bool :=
  bool_decide (String.length suffix ≤ String.length s)
  && bool_decide (String.substring (String.length s - String.length suffix)
                            (String.length suffix) s = suffix).

(** [response.raise_for_status()] *)
Definition raise_for_status {S} (response : Response) : M S unit :=
  let status := pretty (status_code response) in
  let tail := ": " +:+ reason response +:+ " for url: " +:+ url response in
  if bool_decide (400 ≤ status_code response < 500) then
    raise (RequestException (status +:+ " Client Error" +:+ tail))
  else if bool_decide (500 ≤ status_code response < 600) then
    raise (RequestException (status +:+ " Server Error" +:+ tail))
  else mret tt.

(** [requests.get(address)] *)
Definition get {S} (env : Env) (address : string) : M S Response :=
  emit (Get address) ;; lift (requests_get env address).

(** *** Step 1: [fetch_usaspending_data] *)

(** Its local variables that are assigned more than once. *)
Record fetch_locals : Type := mkFetchLocals {
  dataframes : list DataFrame;
  csv_files_found : bool
}.

Definition set_dataframes (dfs : list DataFrame) (s : fetch_locals)
    : fetch_locals :=
  mkFetchLocals dfs (csv_files_found s).
Definition set_csv_files_found (b : bool) (s : fetch_locals)
    : fetch_locals :=
  mkFetchLocals (dataframes s) b.

(** The locals before the first assignment. *)
Definition fetch_unbound : fetch_locals := mkFetchLocals [] false.

Definition download_url : string :=
  "https://files.usaspending.gov/award_data_archive/FY2025_All_Contracts_Full_20250506.zip".

(** The body of [for file in z.namelist()]. *)
Definition extract_member (env : Env) (z : ZipFile) (file : string)
    : M fetch_locals unit :=
  if endswith file ".csv" then
    modify (set_csv_files_found true) ;;
    print ("Extracting and reading " +:+ file) ;;
    try_except
      (member ← lift (zopen z file);
       df ← lift (pd_read_csv env member);
       modify (λ s, set_dataframes (dataframes s ++ [df]) s))
      (λ read_error,
         print ("Error reading CSV file " +:+ file +:+ ": "
                +:+ exn_str read_error))
  else mret tt.

Definition fetch_usaspending_data (env : Env) (file_name : string)
    : M fetch_locals (list DataFrame) :=
  print ("Downloading " +:+ file_name +:+ " from USAspending...") ;;
  modify (set_dataframes []) ;;
  try_except
    (response ← get env download_url;
     raise_for_status response ;;
     z ← lift (zipfile_ZipFile env (content response));
     modify (set_csv_files_found false) ;;
     for_each (namelist z) (extract_member env z) ;;
     found ← gets csv_files_found;
     if negb found then print ("No CSV file found in " +:+ file_name)
     else mret tt)
    (λ e,
       match e with
       | RequestException _ =>
           print ("Failed to download " +:+ file_name +:+ ": " +:+ exn_str e)
       | BadZipFile _ =>
           print ("Failed to open zip file: " +:+ file_name
                  +:+ ". It might be corrupted or not a zip file.")
       | OtherException _ =>
           print ("An unexpected error occurred during download or extraction: "
                  +:+ exn_str e)
       end) ;;
  gets dataframes.

(** *** Step 2: [fetch_doge_contracts] *)

Definition fetch_doge_contracts (env : Env) (per_page : nat)
    : M unit DataFrame :=
  let address :=
    "https://api.doge.gov/savings/contracts?per_page=" +:+ pretty per_page in
  print ("Fetching DOGE contracts from " +:+ address +:+ " (per_page="
         +:+ pretty per_page +:+ ")...") ;;
  (* [Some df]: the [return df] inside [try]; [None]: fall through *)
  returned ← try_except
    (response ← get env address;
     raise_for_status response ;;
     data ← lift (json_loads env (content response));
     df ← lift (pd_DataFrame env data);
     print ("Retrieved " +:+ pretty (len df) +:+ " contracts from DOGE API.") ;;
     mret (Some df))
    (λ e,
       match e with
       | RequestException _ =>
           print ("Failed to fetch DOGE contracts from API: " +:+ exn_str e)
       | _ =>
           print ("An unexpected error occurred during API fetch: "
                  +:+ exn_str e)
       end ;;
       mret None);
  match returned with
  | Some df => mret df
  | None => mret empty_frame
  end.

(** *** Step 3: [merge_data] *)

Context `{!Dtypes scalar}.

(** The call of [pd.merge] is not inside a [try]: what it raises leaves
    [merge_data]. *)
Definition merge_data (df1 df2 : DataFrame) (left_on right_on : string)
    : M unit DataFrame :=
  if decide (left_on ∉ columns df1) then
    print ("'" +:+ left_on +:+ "' not found in the first dataset (USAspending).") ;;
    mret empty_frame
  else if decide (right_on ∉ columns df2) then
    print ("'" +:+ right_on +:+ "' not found in the second dataset (DOGE).") ;;
    mret empty_frame
  else
    print ("Merging datasets on '" +:+ left_on +:+ "' (USAspending) and '"
           +:+ right_on +:+ "' (DOGE)...") ;;
    merged ← lift (pd_merge df1 df2 left_on right_on);
    print ("Merged " +:+ pretty (len df1) +:+ " rows (USAspending) + "
           +:+ pretty (len df2) +:+ " rows (DOGE) → "
           +:+ pretty (len merged) +:+ " total rows.") ;;
    mret merged.

(** *** Main execution flow *)

(** A library call that raises when it has no result. *)
Definition or_raise {S A} (msg : string) (o : option A) : M S A :=
  match o with
  | Some a => mret a
  | None => raise (OtherException msg)
  end.

(** Nothing in [main] is inside a [try] either. *)
Definition main (env : Env) : M unit unit :=
  let usaspending_file_name := "FY2025_All_Contracts_Full_20250506.zip" in
  let usaspending_merge_key := "award_id_piid" in
  let doge_merge_key := "piid" in
  usaspending_dataframes ←
    call fetch_unbound (fetch_usaspending_data env usaspending_file_name);
  if bool_decide (usaspending_dataframes = []) then
    print "❌ No USAspending dataframes were loaded. Cannot proceed with merge."
  else
    print ("Concatenating " +:+ pretty (length usaspending_dataframes)
           +:+ " USAspending dataframes...") ;;
    df_usaspending ←
      or_raise "No objects to concatenate" (pd_concat usaspending_dataframes);
    print ("Total rows in concatenated USAspending data: "
           +:+ pretty (len df_usaspending)) ;;
    df_doge ← call tt (fetch_doge_contracts env 500);
    if empty df_doge then
      print "❌ Failed to load DOGE data. Cannot proceed with merge."
    else
      merged_df ← call tt (merge_data df_usaspending df_doge
                             usaspending_merge_key doge_merge_key);
      if empty merged_df && (negb (empty df_usaspending) && negb (empty df_doge))
      then
        print "⚠️ Merge resulted in an empty DataFrame. Check merge keys and data."
      else if negb (empty merged_df) then
        let output_filename := "merged_award_data_by_piid.csv" in
        emit (ToCsv output_filename merged_df) ;;
        print ("✅ Saved merged data to '" +:+ output_filename +:+ "'")
      else mret tt.

(** *** What the stages return, read off the environment *)

(** What reading one member yields: [pd.read_csv(z.open(file))]. *)
Definition read_member (env : Env) (z : ZipFile) (file : string)
    : exn + DataFrame :=
  match zopen z file with
  | inl e => inl e
  | inr member => pd_read_csv env member
  end.

Definition parsed {A} (r : exn + A) : option A :=
  match r with inl _ => None | inr a => Some a end.

(** The frames of the members named [*.csv] that parse, in archive order. *)
Definition extracted (env : Env) (z : ZipFile) (names : list string)
    : list DataFrame :=
  omap (λ file, parsed (read_member env z file))
       (filter (λ file, endswith file ".csv" = true) names).

(** The frames the fetch returns, read off the responses of the network
    and of the parsers. *)
Definition fetched (env : Env) : list DataFrame :=
  match requests_get env download_url with
  | inl _ => []
  | inr response =>
      if bool_decide (400 ≤ status_code response < 600) then []
      else match zipfile_ZipFile env (content response) with
           | inl _ => []
           | inr z => extracted env z (namelist z)
           end
  end.

(** The address of the feed for a page size. *)
Definition feed_address (per_page : nat) : string :=
  "https://api.doge.gov/savings/contracts?per_page=" +:+ pretty per_page.

(** The frame the feed fetch returns, read off the responses. *)
Definition fed (env : Env) (per_page : nat) : DataFrame :=
  match requests_get env (feed_address per_page) with
  | inl _ => empty_frame
  | inr response =>
      if bool_decide (400 ≤ status_code response < 600) then empty_frame
      else match json_loads env (content response) with
           | inl _ => empty_frame
           | inr data =>
               match pd_DataFrame env data with
               | inl _ => empty_frame
               | inr df => df
               end
           end
  end.

(** What [merge_data] returns or raises. *)
Definition merge_outcome (df1 df2 : DataFrame) (left_on right_on : string)
    : exn + DataFrame :=
  if decide (left_on ∉ columns df1 ∨ right_on ∉ columns df2)
  then inr empty_frame
  else pd_merge df1 df2 left_on right_on.

(** The lines the loop prints for one member of the archive. *)
Definition member_lines (env : Env) (z : ZipFile) (file : string)
    : list event :=
  if endswith file ".csv" then
    Print ("Extracting and reading " +:+ file)
    :: match read_member env z file with
       | inl read_error =>
           [Print ("Error reading CSV file " +:+ file +:+ ": "
                   +:+ exn_str read_error)]
       | inr _ => []
       end
  else [].

(** The HTTP requests among the events of a run. *)
Definition requests (out : list event) : list string :=
  omap (λ ev, match ev with Get address => Some address | _ => None end) out.

(** The files written among the events of a run. *)
Definition files_written (out : list event) : list string :=
  omap (λ ev, match ev with ToCsv path _ => Some path | _ => None end) out.

End Functions.

(** ** Sample inputs *)

Module Samples.

(** Tables of strings: columns of dtype object that hold [str] values.
    Any two are accepted as keys, nothing is converted, and the keys are
    sorted as Python sorts strings. *)
#[global] Instance string_dtypes : Dtypes string := {|
  dtype _ := "object";
  mergeable _ _ := true;
  common _ _ s := s;
  promote _ s := s;
  key_le := String.leb
|}.

(** The archive and feed tables of the end-to-end scenario. *)
Definition awards : DataFrame string :=
  mkDataFrame ["award_id_piid"; "amount"]
    [(0, [Some "P1"; Some "100"]); (1, [Some "P2"; Some "200"])].

Definition savings : DataFrame string :=
  mkDataFrame ["piid"; "savings"]
    [(0, [Some "P1"; Some "50"]); (1, [Some "P3"; Some "10"])].

(** Three awards and three savings, all under one key. *)
Definition repeated_awards : DataFrame string :=
  mkDataFrame ["award_id_piid"; "amount"]
    [(0, [Some "A"; Some "1"]); (1, [Some "A"; Some "2"]);
     (2, [Some "A"; Some "3"])].

Definition repeated_savings : DataFrame string :=
  mkDataFrame ["piid"; "savings"]
    [(0, [Some "A"; Some "4"]); (1, [Some "A"; Some "5"]);
     (2, [Some "A"; Some "6"])].

(** One award and one saving, both without a key. *)
Definition unkeyed_award : DataFrame string :=
  mkDataFrame ["award_id_piid"; "amount"] [(0, [None; Some "100"])].

Definition unkeyed_saving : DataFrame string :=
  mkDataFrame ["piid"; "savings"] [(0, [None; Some "50"])].

(** Awards keyed under the label of the feed, one of them without a key. *)
Definition relabelled_awards : DataFrame string :=
  mkDataFrame ["piid"; "amount"]
    [(0, [Some "P1"; Some "100"]); (1, [None; Some "200"])].

(** A table of awards with its header only. *)
Definition header_only : DataFrame string :=
  mkDataFrame ["award_id_piid"; "amount"] [].


(** An archive with two members named [*.csv], the second of which does
    not parse, and one other member. *)
Definition archive : ZipFile :=
  mkZipFile ["data/a.csv"; "README.txt"; "b.csv"]
    (λ file, if decide (file = "b.csv") then inl (OtherException "truncated")
             else inr []).

Definition network : @Env string unit :=
  mkEnv (λ address, inr (mkResponse 200 "OK" address []))
        (λ _, inr archive)
        (λ _, inr awards)
        (λ _, inr ())
        (λ _, inr savings).

(** The same network serving an archive without a member named [*.csv],
    a body that is not an archive, and nothing at all. *)
Definition notes_only : ZipFile :=
  mkZipFile ["README.txt"; "data.csv.gz"] (λ _, inr []).

Definition network_without_csv : @Env string unit :=
  mkEnv (λ address, inr (mkResponse 200 "OK" address []))
        (λ _, inr notes_only)
        (λ _, inr awards)
        (λ _, inr ())
        (λ _, inr savings).

Definition network_bad_zip : @Env string unit :=
  mkEnv (λ address, inr (mkResponse 200 "OK" address []))
        (λ _, inl (BadZipFile "File is not a zip file"))
        (λ _, inr awards)
        (λ _, inr ())
        (λ _, inr savings).

Definition network_down : @Env string unit :=
  mkEnv (λ _, inl (RequestException "Connection refused"))
        (λ _, inr archive)
        (λ _, inr awards)
        (λ _, inr ())
        (λ _, inr savings).

(** Tables of integers, floats that are whole numbers, and strings. *)
Inductive value : Type :=
  | Int (z : Z)
  | Float (z : Z)      (* the float64 equal to the whole number [z] *)
  | Str (s : string).

#[global] Instance value_eq_dec : EqDecision value.
Proof. solve_decision. Defined.

(** The float64 nearest to an integer: 53 significant bits, ties to the
    even one. *)
Definition nearest_float64 (z : Z) : Z :=
  let a := Z.abs z in
  let shift := (Z.log2 a + 1 - 53)%Z in
  if decide (shift ≤ 0)%Z then z
  else
    let q := Z.shiftr a shift in
    let r := Z.land a (Z.ones shift) in
    let half := Z.shiftl 1 (shift - 1) in
    let q' := if decide (half < r ∨ (r = half ∧ Z.odd q = true))%Z
              then (q + 1)%Z else q in
    (Z.sgn z * Z.shiftl q' shift)%Z.

Definition to_float64 (x : value) : value :=
  match x with
  | Int z => Float (nearest_float64 z)
  | _ => x
  end.

(** The dtype of a column, as [pd.read_csv] infers it: int64 when every
    cell is an integer, float64 when every cell is a float or missing,
    object otherwise and when there is no cell. *)
Definition is_int (c : cell value) : bool :=
  match c with Some (Int _) => true | _ => false end.
Definition is_float (c : cell value) : bool :=
  match c with Some (Float _) | None => true | _ => false end.

Definition value_dtype (col : list (cell value)) : string :=
  if bool_decide (col = []) then "object"
  else if forallb is_int col then "int64"
  else if forallb is_float col then "float64"
  else "object".

Definition numeric (col : list (cell value)) : bool :=
  bool_decide (value_dtype col ≠ "object").

(** Key columns are refused when one is numeric and the other is a
    column of dtype object without an integer in it, a column of strings
    that is; a column without a cell is never refused. *)
Definition value_mergeable (lk rk : list (cell value)) : bool :=
  if bool_decide (lk = []) || bool_decide (rk = []) then true
  else if numeric lk && negb (numeric rk) then existsb is_int rk
  else if negb (numeric lk) && numeric rk then existsb is_int lk
  else true.

(** An int64 key column against a float64 one is compared as float64. *)
Definition value_common (lk rk : list (cell value)) (x : value) : value :=
  if numeric lk && numeric rk
     && bool_decide (value_dtype lk ≠ value_dtype rk)
  then to_float64 x else x.

(** Numbers before strings, as pandas sorts mixed keys. *)
Definition value_le (x y : value) : bool :=
  match x, y with
  | Str s, Str t => String.leb s t
  | Str _, _ => false
  | _, Str _ => true
  | (Int a | Float a), (Int b | Float b) => bool_decide (a ≤ b)%Z
  end.

#[global] Instance value_dtypes : Dtypes value := {|
  dtype := value_dtype;
  mergeable := value_mergeable;
  common := value_common;
  promote col x := if bool_decide (value_dtype col = "int64")
                   then to_float64 x else x;
  key_le := value_le
|}.

(** Awards keyed by number, against savings keyed by string. *)
Definition numbered_awards : DataFrame value :=
  mkDataFrame ["award_id_piid"; "amount"]
    [(0, [Some (Int 1); Some (Int 100)]); (1, [Some (Int 2); Some (Int 200)])].

Definition lettered_savings : DataFrame value :=
  mkDataFrame ["piid"; "savings"]
    [(0, [Some (Str "P1"); Some (Int 50)]); (1, [Some (Str "P3"); Some (Int 10)])].

(** An award whose amount no float64 holds, and a saving under another
    key. *)
Definition large_award : DataFrame value :=
  mkDataFrame ["award_id_piid"; "amount"]
    [(0, [Some (Str "P1"); Some (Int 9007199254740993)])].

Definition other_saving : DataFrame value :=
  mkDataFrame ["piid"; "savings"]
    [(0, [Some (Str "P3"); Some (Int 10)])].

(** Awards with two columns under the label of the key, awards with a
    column that already ends in [_x], and savings with an amount of
    their own. *)
Definition doubled_key : DataFrame string :=
  mkDataFrame ["award_id_piid"; "award_id_piid"; "amount"]
    [(0, [Some "P1"; Some "P2"; Some "100"])].

Definition suffixed_awards : DataFrame string :=
  mkDataFrame ["award_id_piid"; "amount"; "amount_x"]
    [(0, [Some "P1"; Some "100"; Some "1"])].

Definition amount_savings : DataFrame string :=
  mkDataFrame ["piid"; "amount"] [(0, [Some "P1"; Some "50"])].

(** Savings out of order, under the label of the awards' key. *)
Definition unsorted_savings : DataFrame string :=
  mkDataFrame ["award_id_piid"; "savings"]
    [(0, [Some "P3"; Some "10"]); (1, [Some "P1"; Some "50"])].

(** A network whose archive is keyed by number and whose feed is keyed by
    string. *)
Definition network_mixed_keys : @Env value unit :=
  mkEnv (λ address, inr (mkResponse 200 "OK" address []))
        (λ _, inr archive)
        (λ _, inr numbered_awards)
        (λ _, inr ())
        (λ _, inr lettered_savings).

End Samples.

(** * Properties *)

(** ** The indexers of the outer join *)

Section Indexers.
Context {scalar : Type} `{!EqDecision scalar} `{!Dtypes scalar}.
Implicit Types (k : cell scalar) (keys lkeys rkeys : list (cell scalar)).
Implicit Types (e : option nat * option nat).

Lemma elem_of_positions k keys j0 j :
  j ∈ positions k keys j0 ↔ ∃ d, j = j0 + d ∧ keys !! d = Some k.
Proof.
  revert j0. induction keys as [|k' keys IH]; intros j0; simpl.
  - split; [by intros ?%elem_of_nil | by intros (? & _ & ?)].
  - assert (j ∈ positions k keys (S j0) ↔
            ∃ d, j = j0 + S d ∧ keys !! d = Some k) as IH'.
    { rewrite IH. by setoid_rewrite Nat.add_succ_r. }
    case_decide as Hk; [rewrite elem_of_cons|]; rewrite IH'; split.
    + intros [->|(d & -> & Hd)]; [exists 0 | exists (S d)]; subst; simpl.
      * by rewrite Nat.add_0_r.
      * done.
    + intros ([|d] & -> & Hd); [left; lia | right; eauto].
    + intros (d & -> & Hd). by exists (S d).
    + intros ([|d] & -> & Hd); simplify_eq/=. eauto.
Qed.

Lemma positions_nil k keys j0 : positions k keys j0 = [] ↔ k ∉ keys.
Proof.
  revert j0. induction keys as [|k' keys IH]; intros j0; simpl.
  - split; [intros _ ?%elem_of_nil; done | done].
  - rewrite not_elem_of_cons. case_decide; subst.
    + split; [done | by intros []].
    + rewrite IH. naive_solver.
Qed.

Lemma length_positions_shift k keys j0 :
  length (positions k keys j0) = length (positions k keys 0).
Proof.
  revert j0. generalize 0.
  induction keys as [|k' keys IH]; intros n j0; simpl; [done|].
  case_decide; simpl; by rewrite (IH (S n) (S j0)).
Qed.

Lemma elem_of_join_imap {A B} (f : nat → A → list B) (l : list A) (y : B) :
  y ∈ mjoin (imap f l) ↔ ∃ i x, l !! i = Some x ∧ y ∈ f i x.
Proof.
  rewrite list_elem_of_join. split.
  - intros (ys & Hy & (i & Hi)%list_elem_of_lookup).
    rewrite list_lookup_imap in Hi.
    destruct (l !! i) as [x|] eqn:Hx; simplify_eq/=. eauto.
  - intros (i & x & Hx & Hy). exists (f i x). split; [done|].
    apply list_elem_of_lookup. exists i. by rewrite list_lookup_imap, Hx.
Qed.

Lemma elem_of_left_entries rkeys i k e :
  e ∈ left_entries rkeys i k ↔
  (e = (Some i, None) ∧ k ∉ rkeys) ∨
  (∃ j, e = (Some i, Some j) ∧ rkeys !! j = Some k).
Proof.
  unfold left_entries.
  destruct (positions k rkeys 0) as [|j0 js] eqn:Hpos.
  - apply positions_nil in Hpos as Hk. rewrite list_elem_of_singleton.
    split; [by left | intros [[-> _]|(j & -> & Hj)]; [done|]].
    destruct Hk. by eapply list_elem_of_lookup_2.
  - rewrite list_elem_of_fmap. setoid_rewrite <-Hpos.
    setoid_rewrite elem_of_positions. split.
    + intros (j & -> & d & -> & Hd). right. eauto.
    + intros [[-> Hk]|(j & -> & Hj)]; [|by eauto 6].
      apply positions_nil with (j0:=0) in Hk. congruence.
Qed.

Lemma elem_of_right_entries lkeys j k e :
  e ∈ right_entries lkeys j k ↔ e = (None, Some j) ∧ k ∉ lkeys.
Proof.
  unfold right_entries. case_decide.
  - split; [by intros ?%elem_of_nil | naive_solver].
  - rewrite list_elem_of_singleton. naive_solver.
Qed.

Lemma elem_of_by_rows lkeys rkeys e :
  e ∈ by_rows lkeys rkeys ↔
  (∃ i j k, e = (Some i, Some j) ∧ lkeys !! i = Some k ∧ rkeys !! j = Some k) ∨
  (∃ i k, e = (Some i, None) ∧ lkeys !! i = Some k ∧ k ∉ rkeys) ∨
  (∃ j k, e = (None, Some j) ∧ rkeys !! j = Some k ∧ k ∉ lkeys).
Proof.
  unfold by_rows. rewrite elem_of_app, !elem_of_join_imap.
  setoid_rewrite elem_of_left_entries.
  setoid_rewrite elem_of_right_entries. naive_solver.
Qed.

(** *** Counting the entries listed by rows *)

Lemma occurrences_cons k k' keys :
  occurrences k (k' :: keys)
  = (if decide (k' = k) then 1 else 0) + occurrences k keys.
Proof.
  unfold occurrences. simpl. case_decide; simpl;
    by rewrite length_positions_shift.
Qed.

Lemma occurrences_0 k keys : occurrences k keys = 0 ↔ k ∉ keys.
Proof.
  unfold occurrences. rewrite <-(positions_nil k keys 0).
  by destruct (positions k keys 0).
Qed.

Lemma matched_unmatched others keys :
  matched others keys + unmatched others keys = length keys.
Proof.
  unfold matched, unmatched.
  induction keys as [|k keys IH]; [done|].
  rewrite !filter_cons. simpl. repeat case_decide; simpl; (done || lia).
Qed.

Lemma matched_0 others keys : matched others keys = 0 ↔ no_match keys others.
Proof.
  unfold matched, no_match.
  induction keys as [|k keys IH]; simpl.
  - split; [by intros _ ? ?%elem_of_nil | done].
  - rewrite filter_cons. setoid_rewrite elem_of_cons.
    case_decide; simpl; [naive_solver|]. rewrite IH. naive_solver.
Qed.

Lemma no_match_sym lkeys rkeys : no_match lkeys rkeys ↔ no_match rkeys lkeys.
Proof. unfold no_match. naive_solver. Qed.

Lemma length_join_imap {A B} (f : nat → A → list B) (g : A → nat) (l : list A) :
  (∀ i x, length (f i x) = g x) →
  length (mjoin (imap f l)) = sum_list_with g l.
Proof.
  revert f. induction l as [|x l IH]; intros f Hf; simpl; [done|].
  rewrite length_app, Hf. f_equal. apply IH. intros i y. apply Hf.
Qed.

Lemma length_left_entries rkeys i k :
  length (left_entries rkeys i k)
  = (if decide (k ∈ rkeys) then 0 else 1) + occurrences k rkeys.
Proof.
  unfold left_entries, occurrences.
  destruct (positions k rkeys 0) as [|j js] eqn:Hpos.
  - apply positions_nil in Hpos. by rewrite decide_False.
  - rewrite decide_True, length_fmap; [done|].
    destruct (decide (k ∈ rkeys)) as [|Hk]; [done|].
    apply positions_nil with (j0:=0) in Hk. congruence.
Qed.

Lemma sum_list_with_plus {A} (f g : A → nat) (l : list A) :
  sum_list_with (λ x, f x + g x) l = sum_list_with f l + sum_list_with g l.
Proof. induction l; simpl; lia. Qed.

Lemma sum_list_with_indicator {A} (P : A → Prop) `{!∀ x, Decision (P x)}
    (l : list A) :
  sum_list_with (λ x, if decide (P x) then 0 else 1) l
  = length (filter (λ x, ¬ P x) l).
Proof.
  induction l as [|x l IH]; [done|]. rewrite filter_cons. simpl.
  destruct (decide (P x)); [rewrite decide_False by tauto|rewrite decide_True by done];
    simpl; lia.
Qed.

Lemma length_by_rows lkeys rkeys :
  length (by_rows lkeys rkeys)
  = pairs lkeys rkeys + unmatched rkeys lkeys + unmatched lkeys rkeys.
Proof.
  unfold by_rows, pairs, unmatched. rewrite length_app.
  rewrite (length_join_imap _ _ _ (length_left_entries rkeys)).
  rewrite (length_join_imap (right_entries lkeys)
             (λ k, if decide (k ∈ lkeys) then 0 else 1)).
  2:{ intros j k. unfold right_entries. by case_decide. }
  rewrite sum_list_with_plus, !sum_list_with_indicator. lia.
Qed.

(** Counting the matching pairs from either side. *)
Lemma pairs_sym lkeys rkeys : pairs lkeys rkeys = pairs rkeys lkeys.
Proof.
  unfold pairs. revert rkeys.
  induction lkeys as [|k lkeys IH]; intros rkeys; simpl.
  - induction rkeys; simpl; [done|]. by rewrite <-IHrkeys.
  - rewrite IH. clear IH.
    induction rkeys as [|k' rkeys IH]; simpl; [done|].
    rewrite !occurrences_cons.
    destruct (decide (k' = k)), (decide (k = k')); subst; try done; lia.
Qed.

Lemma matched_le_pairs lkeys rkeys : matched rkeys lkeys ≤ pairs lkeys rkeys.
Proof.
  unfold matched, pairs.
  induction lkeys as [|k lkeys IH]; [done|]. rewrite filter_cons. simpl.
  case_decide as Hk; simpl; [|lia].
  pose proof (occurrences_0 k rkeys).
  destruct (occurrences k rkeys); [tauto|lia].
Qed.

Lemma pairs_no_match lkeys rkeys :
  no_match lkeys rkeys → pairs lkeys rkeys = 0.
Proof.
  unfold no_match, pairs. induction lkeys as [|k lkeys IH]; intros Hno; [done|].
  simpl. rewrite IH by (intros k' ?; apply Hno; by right).
  rewrite (proj2 (occurrences_0 k rkeys)); [done|]. apply Hno. by left.
Qed.

(** *** How often a row occurs among the entries listed by rows *)

Lemma filter_join_imap {A B} (P : B → Prop) `{!∀ y, Decision (P y)}
    (f : nat → A → list B) (l : list A) :
  filter P (mjoin (imap f l)) = mjoin (imap (λ i x, filter P (f i x)) l).
Proof.
  revert f. induction l as [|x l IH]; intros f; simpl; [done|].
  by rewrite filter_app, IH.
Qed.

Lemma length_join_imap_at {A B} (f : nat → A → list B) (l : list A) (i : nat) :
  (∀ i' x, i' ≠ i → f i' x = []) →
  length (mjoin (imap f l)) = from_option (λ x, length (f i x)) 0 (l !! i).
Proof.
  revert f i. induction l as [|x l IH]; intros f i Hf; simpl; [done|].
  rewrite length_app. destruct i as [|i]; simpl.
  - rewrite (IH _ (length l)) by (intros; by apply Hf).
    rewrite (lookup_ge_None_2 l (length l)) by lia. simpl. lia.
  - rewrite Hf by done. simpl. apply (IH (f ∘ S) i).
    intros i' y ?. apply Hf. lia.
Qed.

Lemma length_join_imap_nil {A B} (f : nat → A → list B) (l : list A) :
  (∀ i x, f i x = []) → length (mjoin (imap f l)) = 0.
Proof.
  intros Hf. rewrite (length_join_imap_at f l (length l)) by (intros; apply Hf).
  by rewrite (lookup_ge_None_2 l (length l)).
Qed.

Lemma filter_left_entries_fst rkeys i i' k :
  filter (λ e, e.1 = Some i) (left_entries rkeys i' k)
  = if decide (i' = i) then left_entries rkeys i' k else [].
Proof.
  unfold left_entries. destruct (positions k rkeys 0) as [|j0 js].
  { rewrite filter_cons, filter_nil. simpl.
    repeat case_decide; simplify_eq; done. }
  generalize (j0 :: js). intros js'.
  induction js' as [|j js' IH]; [by case_decide|].
  rewrite fmap_cons, filter_cons, IH. simpl.
  repeat case_decide; simplify_eq; done.
Qed.

Lemma filter_right_entries_fst lkeys i j k :
  filter (λ e, e.1 = Some i) (right_entries lkeys j k) = [].
Proof. unfold right_entries. case_decide; [done|]. by rewrite filter_cons. Qed.

Lemma count_left_by_rows lkeys rkeys i k :
  lkeys !! i = Some k →
  length (filter (λ e, e.1 = Some i) (by_rows lkeys rkeys))
  = 1 `max` occurrences k rkeys.
Proof.
  intros Hk. unfold by_rows.
  rewrite filter_app, length_app, !filter_join_imap.
  rewrite (length_join_imap_at _ lkeys i), Hk.
  2:{ intros i' x Hne. by rewrite filter_left_entries_fst, decide_False. }
  rewrite length_join_imap_nil by (intros; apply filter_right_entries_fst).
  simpl. rewrite filter_left_entries_fst, decide_True by done.
  rewrite length_left_entries. pose proof (occurrences_0 k rkeys) as H0.
  case_decide as Hin.
  - destruct (occurrences k rkeys); [by destruct (proj1 H0 eq_refl)|lia].
  - rewrite (proj2 H0 Hin). lia.
Qed.

Lemma filter_positions k keys j0 j :
  length (filter (λ j', j' = j) (positions k keys j0))
  = if decide (j0 ≤ j ∧ keys !! (j - j0) = Some k) then 1 else 0.
Proof.
  revert j0. induction keys as [|k' keys IH]; intros j0; simpl.
  { rewrite decide_False; [done|]. by intros [_ ?]. }
  assert ((j0 ≤ j ∧ (k' :: keys) !! (j - j0) = Some k) ↔
          (j = j0 ∧ k' = k) ∨ (S j0 ≤ j ∧ keys !! (j - S j0) = Some k))
    as Hiff.
  { destruct (decide (j = j0)) as [->|Hne].
    - rewrite Nat.sub_diag. simpl. split; [|intros [[_ ->]|[? _]]; [done|lia]].
      intros [_ ?]. simplify_eq. by left.
    - split.
      + intros [Hle Hk]. right. split; [lia|].
        replace (j - j0) with (S (j - S j0)) in Hk by lia. done.
      + intros [[? _]|[Hle Hk]]; [done|]. split; [lia|].
        replace (j - j0) with (S (j - S j0)) by lia. done. }
  case_decide as Hk';
    [rewrite filter_cons; destruct (decide (j0 = j)) as [<-|Hne]; simpl|];
    rewrite IH; repeat case_decide; try done; exfalso; intuition lia.
Qed.

Lemma filter_left_entries_snd rkeys i j k k' :
  rkeys !! j = Some k →
  length (filter (λ e, e.2 = Some j) (left_entries rkeys i k'))
  = if decide (k' = k) then 1 else 0.
Proof.
  intros Hj. unfold left_entries.
  destruct (positions k' rkeys 0) as [|j0 js] eqn:Hpos.
  { apply positions_nil in Hpos. rewrite decide_False; [done|].
    intros ->. destruct Hpos. by eapply list_elem_of_lookup_2. }
  rewrite <-Hpos. clear Hpos.
  transitivity (length (filter (λ j', j' = j) (positions k' rkeys 0))).
  { generalize (positions k' rkeys 0). intros js'.
    induction js' as [|j' js' IH]; [done|].
    rewrite fmap_cons, !filter_cons. simpl.
    repeat case_decide; simplify_eq/=; by rewrite ?IH. }
  rewrite filter_positions, Nat.sub_0_r, Hj.
  repeat case_decide; try done; exfalso; naive_solver lia.
Qed.

Lemma filter_right_entries_snd lkeys j j' k :
  filter (λ e, e.2 = Some j) (right_entries lkeys j' k)
  = if decide (j' = j) then right_entries lkeys j' k else [].
Proof.
  unfold right_entries. case_decide; [by case_decide|].
  rewrite filter_cons, filter_nil. simpl.
  repeat case_decide; simplify_eq; done.
Qed.

Lemma sum_list_with_occurrences k keys :
  sum_list_with (λ k', if decide (k' = k) then 1 else 0) keys
  = occurrences k keys.
Proof.
  induction keys as [|k' keys IH]; [done|].
  rewrite occurrences_cons. simpl. by rewrite IH.
Qed.

Lemma count_right_by_rows lkeys rkeys j k :
  rkeys !! j = Some k →
  length (filter (λ e, e.2 = Some j) (by_rows lkeys rkeys))
  = 1 `max` occurrences k lkeys.
Proof.
  intros Hk. unfold by_rows.
  rewrite filter_app, length_app, !filter_join_imap.
  rewrite (length_join_imap _ (λ k', if decide (k' = k) then 1 else 0))
    by (intros; by apply filter_left_entries_snd).
  rewrite sum_list_with_occurrences.
  rewrite (length_join_imap_at _ rkeys j), Hk.
  2:{ intros j' x Hne. by rewrite filter_right_entries_snd, decide_False. }
  simpl. rewrite filter_right_entries_snd, decide_True by done.
  unfold right_entries. pose proof (occurrences_0 k lkeys) as H0.
  case_decide as Hin; simpl.
  - destruct (occurrences k lkeys); [by destruct (proj1 H0 eq_refl)|lia].
  - rewrite (proj2 H0 Hin). lia.
Qed.

(** *** The entries of the join *)

Lemma NoDup_positions k keys j0 : NoDup (positions k keys j0).
Proof.
  revert j0. induction keys as [|k' keys IH]; intros j0; simpl; [constructor|].
  case_decide; [|done]. apply NoDup_cons. split; [|done].
  rewrite elem_of_positions. intros (d & ? & _). lia.
Qed.

Lemma elem_of_positions_0 k keys j :
  j ∈ positions k keys 0 ↔ keys !! j = Some k.
Proof. rewrite elem_of_positions. naive_solver. Qed.

Lemma elem_of_present keys (x : scalar) : x ∈ present keys ↔ Some x ∈ keys.
Proof. unfold present. rewrite list_elem_of_omap. naive_solver. Qed.

Lemma elem_of_key_groups lkeys rkeys k :
  k ∈ key_groups lkeys rkeys ↔ k ∈ lkeys ∨ k ∈ rkeys.
Proof.
  unfold key_groups. rewrite elem_of_app, list_elem_of_fmap, <-elem_of_app.
  setoid_rewrite merge_sort_Permutation.
  setoid_rewrite elem_of_remove_dups. setoid_rewrite elem_of_present.
  destruct k as [x|].
  - split; [intros [(? & ? & ?)|Hin]; simplify_eq; [done|]|by eauto].
    case_decide; [by apply list_elem_of_singleton in Hin|by apply elem_of_nil in Hin].
  - split; [intros [(? & ? & ?)|Hin]; [done|]|].
    + case_decide; [done|by apply elem_of_nil in Hin].
    + intros Hin. right. rewrite decide_True by done. by left.
Qed.

Lemma NoDup_key_groups lkeys rkeys : NoDup (key_groups lkeys rkeys).
Proof.
  unfold key_groups. apply NoDup_app. split; [|split].
  - apply (NoDup_fmap_2 _). rewrite merge_sort_Permutation.
    apply NoDup_remove_dups.
  - intros k (x & -> & _)%list_elem_of_fmap Hin.
    case_decide; [by apply list_elem_of_singleton in Hin|by apply elem_of_nil in Hin].
  - case_decide; [apply NoDup_singleton|constructor].
Qed.

Lemma elem_of_group_entries lkeys rkeys k e :
  e ∈ group_entries lkeys rkeys k ↔
  (∃ i j, e = (Some i, Some j) ∧ lkeys !! i = Some k ∧ rkeys !! j = Some k) ∨
  (∃ i, e = (Some i, None) ∧ lkeys !! i = Some k ∧ k ∉ rkeys) ∨
  (∃ j, e = (None, Some j) ∧ rkeys !! j = Some k ∧ k ∉ lkeys).
Proof.
  unfold group_entries.
  pose proof (positions_nil k lkeys 0) as Hl.
  pose proof (positions_nil k rkeys 0) as Hr.
  pose proof (elem_of_positions_0 k lkeys) as Hi.
  pose proof (elem_of_positions_0 k rkeys) as Hj.
  assert (∀ i, lkeys !! i = Some k → k ∈ lkeys) as Hinl
    by (intros; by eapply list_elem_of_lookup_2).
  assert (∀ j, rkeys !! j = Some k → k ∈ rkeys) as Hinr
    by (intros; by eapply list_elem_of_lookup_2).
  destruct (positions k rkeys 0) as [|j0 js] eqn:Hq.
  { apply proj1 in Hr. specialize (Hr eq_refl).
    transitivity (e ∈ (λ i, (Some i, @None nat)) <$> positions k lkeys 0);
      [by destruct (positions k lkeys 0)|].
    rewrite list_elem_of_fmap. setoid_rewrite Hi. naive_solver. }
  assert (k ∈ rkeys) as Hkr.
  { apply dec_stable. intros Hn. apply Hr in Hn. done. }
  destruct (positions k lkeys 0) as [|i0 is'] eqn:Hp.
  { apply proj1 in Hl. specialize (Hl eq_refl).
    rewrite list_elem_of_fmap. setoid_rewrite Hj. naive_solver. }
  assert (k ∈ lkeys) as Hkl.
  { apply dec_stable. intros Hn. apply Hl in Hn. done. }
  rewrite list_elem_of_bind. setoid_rewrite list_elem_of_fmap.
  setoid_rewrite Hi. setoid_rewrite Hj. naive_solver.
Qed.

Lemma NoDup_group_entries lkeys rkeys k :
  NoDup (group_entries lkeys rkeys k).
Proof.
  unfold group_entries.
  pose proof (NoDup_positions k lkeys 0) as Hl.
  pose proof (NoDup_positions k rkeys 0) as Hr.
  assert (Inj (=) (=) (λ i : nat, (Some i, @None nat))) by (intros ???; congruence).
  assert (Inj (=) (=) (λ j : nat, (@None nat, Some j))) by (intros ???; congruence).
  assert (∀ i : nat, Inj (=) (=) (λ j : nat, (Some i, Some j)))
    by (intros ????; congruence).
  destruct (positions k rkeys 0) as [|j0 js].
  { destruct (positions k lkeys 0); by apply (NoDup_fmap_2 _). }
  destruct (positions k lkeys 0) as [|i0 is']; [by apply (NoDup_fmap_2 _)|].
  apply NoDup_bind; [|intros; by apply (NoDup_fmap_2 _)|done].
  intros i1 i2 e _ _ (? & -> & _)%list_elem_of_fmap (? & ? & _)%list_elem_of_fmap.
  congruence.
Qed.

(** The entries of the join, read off the keys. *)
Lemma elem_of_full_outer_join lkeys rkeys e :
  e ∈ full_outer_join lkeys rkeys ↔
  (∃ i j k, e = (Some i, Some j) ∧ lkeys !! i = Some k ∧ rkeys !! j = Some k) ∨
  (∃ i k, e = (Some i, None) ∧ lkeys !! i = Some k ∧ k ∉ rkeys) ∨
  (∃ j k, e = (None, Some j) ∧ rkeys !! j = Some k ∧ k ∉ lkeys).
Proof.
  unfold full_outer_join. rewrite list_elem_of_bind.
  setoid_rewrite elem_of_group_entries. setoid_rewrite elem_of_key_groups.
  assert (∀ i k, lkeys !! i = Some k → k ∈ lkeys) as Hinl
    by (intros; by eapply list_elem_of_lookup_2).
  assert (∀ j k, rkeys !! j = Some k → k ∈ rkeys) as Hinr
    by (intros; by eapply list_elem_of_lookup_2).
  naive_solver.
Qed.

Lemma NoDup_full_outer_join lkeys rkeys : NoDup (full_outer_join lkeys rkeys).
Proof.
  unfold full_outer_join. apply NoDup_bind.
  - intros k1 k2 e _ _ H1%elem_of_group_entries H2%elem_of_group_entries.
    naive_solver.
  - intros. apply NoDup_group_entries.
  - apply NoDup_key_groups.
Qed.

Lemma NoDup_join_imap {A B} (f : nat → A → list B) (l : list A) :
  (∀ i x, NoDup (f i x)) →
  (∀ i i' x x' y, y ∈ f i x → y ∈ f i' x' → i = i') →
  NoDup (mjoin (imap f l)).
Proof.
  revert f. induction l as [|x l IH]; intros f Hnd Hdisj; simpl; [constructor|].
  apply NoDup_app. split; [done|split].
  - intros y Hy (i & x' & _ & Hy')%elem_of_join_imap.
    by specialize (Hdisj _ _ _ _ _ Hy Hy').
  - apply IH; [intros; apply Hnd|]. intros i i' ??? Hy Hy'.
    specialize (Hdisj _ _ _ _ _ Hy Hy'). by simplify_eq.
Qed.

Lemma NoDup_by_rows lkeys rkeys : NoDup (by_rows lkeys rkeys).
Proof.
  unfold by_rows. apply NoDup_app. split; [|split].
  - apply NoDup_join_imap.
    + intros i k. unfold left_entries.
      destruct (positions k rkeys 0) eqn:Hpos; [apply NoDup_singleton|].
      rewrite <-Hpos. apply (NoDup_fmap_2 _), NoDup_positions.
    + intros i i' k k' e Hy%elem_of_left_entries Hy'%elem_of_left_entries.
      naive_solver.
  - intros e (i & k & _ & He)%elem_of_join_imap
           (j & k' & _ & He')%elem_of_join_imap.
    apply elem_of_left_entries in He. apply elem_of_right_entries in He'.
    naive_solver.
  - apply NoDup_join_imap.
    + intros j k. unfold right_entries.
      case_decide; [constructor|apply NoDup_singleton].
    + intros j j' k k' e Hy%elem_of_right_entries Hy'%elem_of_right_entries.
      naive_solver.
Qed.

(** The join holds the entries listed by rows, grouped by key. *)
Lemma full_outer_join_by_rows lkeys rkeys :
  full_outer_join lkeys rkeys ≡ₚ by_rows lkeys rkeys.
Proof.
  apply NoDup_Permutation.
  - apply NoDup_full_outer_join.
  - apply NoDup_by_rows.
  - intros e. by rewrite elem_of_full_outer_join, elem_of_by_rows.
Qed.

(** The rows of the join: the matching pairs and the unmatched rows of
    either side. *)
Lemma length_full_outer_join lkeys rkeys :
  length (full_outer_join lkeys rkeys)
  = pairs lkeys rkeys + unmatched rkeys lkeys + unmatched lkeys rkeys.
Proof. by rewrite full_outer_join_by_rows, length_by_rows. Qed.

(** Left row [i] occurs once per right row with its key, and once when
    there is none. *)
Lemma count_left_row lkeys rkeys i k :
  lkeys !! i = Some k →
  length (filter (λ e, e.1 = Some i) (full_outer_join lkeys rkeys))
  = 1 `max` occurrences k rkeys.
Proof. rewrite full_outer_join_by_rows. apply count_left_by_rows. Qed.

(** Right row [j] occurs once per left row with its key, and once when
    there is none. *)
Lemma count_right_row lkeys rkeys j k :
  rkeys !! j = Some k →
  length (filter (λ e, e.2 = Some j) (full_outer_join lkeys rkeys))
  = 1 `max` occurrences k lkeys.
Proof. rewrite full_outer_join_by_rows. apply count_right_by_rows. Qed.

(** Some output row has no left row exactly when a right key is not a
    left key, and the other way round. *)
Lemma lacks_left_iff lkeys rkeys :
  lacks_left (full_outer_join lkeys rkeys) = true
  ↔ ∃ k, k ∈ rkeys ∧ k ∉ lkeys.
Proof.
  unfold lacks_left. rewrite bool_decide_eq_true, list_elem_of_fmap.
  setoid_rewrite elem_of_full_outer_join. split.
  - intros ([??] & ? & [(?&?&?&?&?)|[(?&?&?&?&?)|(j & k & ? & Hj & ?)]]);
      simplify_eq/=. exists k. split; [|done]. by eapply list_elem_of_lookup_2.
  - intros (k & [j Hj]%list_elem_of_lookup & Hk).
    exists (None, Some j). split; [done|]. right; right. eauto.
Qed.

Lemma lacks_right_iff lkeys rkeys :
  lacks_right (full_outer_join lkeys rkeys) = true
  ↔ ∃ k, k ∈ lkeys ∧ k ∉ rkeys.
Proof.
  unfold lacks_right. rewrite bool_decide_eq_true, list_elem_of_fmap.
  setoid_rewrite elem_of_full_outer_join. split.
  - intros ([??] & ? & [(?&?&?&?&?)|[(i & k & ? & Hi & ?)|(?&?&?&?&?)]]);
      simplify_eq/=. exists k. split; [|done]. by eapply list_elem_of_lookup_2.
  - intros (k & [i Hi]%list_elem_of_lookup & Hk).
    exists (Some i, None). split; [done|]. right; left. eauto.
Qed.

(** *** The row count against the row counts of the inputs *)

Lemma matched_cons k lkeys rkeys :
  matched (k :: lkeys) rkeys
  = matched lkeys rkeys + (if decide (k ∈ lkeys) then 0 else occurrences k rkeys).
Proof.
  unfold matched. induction rkeys as [|k' rkeys IH].
  { case_decide; done. }
  rewrite !filter_cons, occurrences_cons. simpl.
  destruct (decide (k' ∈ k :: lkeys)) as [Hin|Hin];
    destruct (decide (k' ∈ lkeys)) as [Hin'|Hin']; simpl; rewrite IH.
  - destruct (decide (k ∈ lkeys)); [lia|].
    rewrite decide_False by (intros ->; done). lia.
  - apply elem_of_cons in Hin as [->|]; [|done].
    rewrite !decide_False by done. rewrite decide_True by done. lia.
  - destruct Hin. by right.
  - apply not_elem_of_cons in Hin as [Hne _].
    destruct (decide (k ∈ lkeys)); [lia|]. rewrite decide_False by done. lia.
Qed.

Lemma occurrences_pos k keys : k ∈ keys → 1 ≤ occurrences k keys.
Proof.
  intros Hin. pose proof (occurrences_0 k keys).
  destruct (occurrences k keys); [tauto|lia].
Qed.

Lemma matched_pos others keys k : k ∈ keys → k ∈ others → 1 ≤ matched others keys.
Proof.
  intros Hk Hin. pose proof (matched_0 others keys) as H0.
  destruct (matched others keys); [|lia].
  destruct (proj1 H0 eq_refl k Hk Hin).
Qed.

(** With no key repeated on both sides, every pair uses up a matched row
    of its own, and the matched rows are used up only when there is none. *)
Lemma pairs_bound lkeys rkeys :
  one_side_unique lkeys rkeys →
  pairs lkeys rkeys ≤ matched rkeys lkeys + matched lkeys rkeys ∧
  (pairs lkeys rkeys = matched rkeys lkeys + matched lkeys rkeys →
   matched rkeys lkeys = 0).
Proof.
  induction lkeys as [|k lkeys IH]; intros Hrep.
  { unfold pairs, matched. simpl. split; [lia|done]. }
  destruct IH as [IHle IHeq].
  { intros k'. destruct (Hrep k') as [Hl|Hr]; [left|by right].
    rewrite occurrences_cons in Hl. lia. }
  rewrite matched_cons. unfold pairs in *. simpl.
  change (matched rkeys (k :: lkeys))
    with (length (filter (.∈ rkeys) (k :: lkeys))).
  rewrite filter_cons.
  destruct (decide (k ∈ rkeys)) as [Hkr|Hkr]; simpl.
  - fold (matched rkeys lkeys) in *.
    pose proof (occurrences_pos _ _ Hkr) as Hpos.
    destruct (decide (k ∈ lkeys)) as [Hkl|Hkl].
    + pose proof (occurrences_pos _ _ Hkl) as Hposl.
      pose proof (matched_pos rkeys lkeys k Hkl Hkr).
      destruct (Hrep k) as [Hl|Hr]; [rewrite occurrences_cons, decide_True in Hl by done; lia|].
      split; lia.
    + split; lia.
  - fold (matched rkeys lkeys) in *.
    rewrite (proj2 (occurrences_0 k rkeys) Hkr).
    destruct (decide (k ∈ lkeys)); simpl; split; lia.
Qed.

(** The row count of the join against the row counts of its inputs. *)
Lemma full_outer_join_count lkeys rkeys :
  let n := length (full_outer_join lkeys rkeys) in
  length lkeys `max` length rkeys ≤ n ∧
  (no_match lkeys rkeys → n = length lkeys + length rkeys) ∧
  (one_side_unique lkeys rkeys →
     n ≤ length lkeys + length rkeys ∧
     (n = length lkeys + length rkeys → no_match lkeys rkeys)).
Proof.
  simpl. rewrite length_full_outer_join.
  pose proof (matched_unmatched rkeys lkeys) as Hl.
  pose proof (matched_unmatched lkeys rkeys) as Hr.
  pose proof (matched_le_pairs lkeys rkeys) as Hml.
  pose proof (matched_le_pairs rkeys lkeys) as Hmr.
  rewrite (pairs_sym rkeys lkeys) in Hmr.
  pose proof (matched_0 rkeys lkeys) as Hl0.
  pose proof (matched_0 lkeys rkeys) as Hr0.
  rewrite (no_match_sym rkeys lkeys) in Hr0.
  split; [lia|split].
  - intros Hno. rewrite (pairs_no_match _ _ Hno).
    apply Hl0 in Hno as ?. apply Hr0 in Hno as ?. lia.
  - intros [Hle Heq]%pairs_bound. split; [lia|].
    intros ?. apply Hl0, Heq. lia.
Qed.

End Indexers.

(** ** The rows of the outer join *)

Section Rows.
Context {scalar : Type} `{!EqDecision scalar} `{!Dtypes scalar}.
Implicit Types (left right : DataFrame scalar) (key : cell scalar).
Implicit Types (l r o lp rest : list (cell scalar)).
Implicit Types (e : option nat * option nat).

Lemma cells_range_index (rs : list (list (cell scalar))) :
  snd <$> range_index rs = rs.
Proof.
  unfold range_index. rewrite fmap_imap.
  change (λ n, snd ∘ (λ r, (n, r))) with (λ _ : nat, @id (list (cell scalar))).
  induction rs as [|r rs IH]; simpl; [done|]. f_equal. apply IH.
Qed.

Lemma index_range_index (rs : list (list (cell scalar))) :
  fst <$> range_index rs = seq 0 (length rs).
Proof.
  unfold range_index. rewrite fmap_imap.
  change (λ n, fst ∘ (λ r : list (cell scalar), (n, r)))
    with (λ (n : nat) (_ : list (cell scalar)), n).
  rewrite (imap_seq_0 rs (λ n, n)). apply list_fmap_id.
Qed.

Lemma get_loc_Some (c : string) (cols : list string) (k : nat) :
  get_loc c cols = Some k → cols !! k = Some c.
Proof.
  unfold get_loc. destruct (list_find _ cols) as [[k' c']|] eqn:Hfind;
    intros; simplify_eq/=.
  apply list_find_Some in Hfind as (? & -> & _). done.
Qed.

Lemma get_loc_lt (c : string) (cols : list string) (k : nat) :
  get_loc c cols = Some k → k < length cols.
Proof. intros ?%get_loc_Some. by eapply lookup_lt_Some. Qed.

Lemma get_loc_elem_of (c : string) (cols : list string) :
  c ∈ cols ↔ is_Some (get_loc c cols).
Proof.
  unfold get_loc. rewrite fmap_is_Some. split.
  - intros Hc. by eapply list_find_elem_of.
  - intros [[k c'] (Hk & -> & _)%list_find_Some].
    by eapply list_elem_of_lookup_2.
Qed.

Lemma rectangular_lookup left i l :
  rectangular left → cells left !! i = Some l →
  length l = length (columns left).
Proof. intros Hrect Hl. by eapply (Forall_lookup_1 _ _ _ _ Hrect). Qed.

Lemma key_column_lookup left kl i l :
  cells left !! i = Some l → key_column kl left !! i = Some (at_pos l kl).
Proof. intros Hl. unfold key_column. by rewrite list_lookup_fmap, Hl. Qed.

Lemma key_column_lookup_inv left kl i k :
  key_column kl left !! i = Some k →
  ∃ l, cells left !! i = Some l ∧ k = at_pos l kl.
Proof.
  unfold key_column. rewrite list_lookup_fmap.
  destruct (cells left !! i) as [l|]; intros; simplify_eq/=. eauto.
Qed.


Lemma length_key_column left k : length (key_column k left) = len left.
Proof. unfold key_column, cells, len. by rewrite !length_fmap. Qed.

Lemma lookup_nulls (n c : nat) : c < n → @nulls scalar n !! c = Some None.
Proof. apply lookup_replicate_2. Qed.

Lemma length_nulls (n : nat) : length (@nulls scalar n) = n.
Proof. apply length_replicate. Qed.

Lemma delete_nulls (k n : nat) : k < n → delete k (@nulls scalar n) = nulls (n - 1).
Proof.
  revert k. induction n as [|n IH]; intros k Hk; [lia|].
  destruct k as [|k]; simpl; [by rewrite Nat.sub_0_r|].
  rewrite IH by lia. destruct n; [lia|]. simpl. by rewrite Nat.sub_0_r.
Qed.

Lemma length_stored (missing : bool) left r :
  length (stored missing left r) = length r.
Proof. destruct missing; simpl; [apply length_imap|done]. Qed.

(** *** The keys as the join compares them *)

Lemma compared_lookup_None (lk rk keys : list (cell scalar)) i :
  compared lk rk keys !! i = Some None ↔ keys !! i = Some None.
Proof.
  unfold compared. rewrite list_lookup_fmap.
  destruct (keys !! i) as [[x|]|]; naive_solver.
Qed.

Lemma compared_None (lk rk keys : list (cell scalar)) :
  None ∈ compared lk rk keys ↔ None ∈ keys.
Proof.
  rewrite !list_elem_of_lookup.
  by setoid_rewrite compared_lookup_None.
Qed.

Lemma occurrences_None_compared (lk rk keys : list (cell scalar)) :
  occurrences None (compared lk rk keys) = occurrences None keys.
Proof.
  unfold compared. induction keys as [|k keys IH]; [done|].
  rewrite fmap_cons, !occurrences_cons, IH.
  destruct k; simpl; repeat case_decide; done.
Qed.

Lemma left_keys_lookup left right kl kr i l :
  cells left !! i = Some l →
  left_keys left right kl kr !! i
  = Some (as_key left right kl kr (at_pos l kl)).
Proof.
  intros Hl. unfold left_keys, compared.
  by rewrite list_lookup_fmap, (key_column_lookup _ _ _ _ Hl).
Qed.

Lemma right_keys_lookup left right kl kr j r :
  cells right !! j = Some r →
  right_keys left right kl kr !! j
  = Some (as_key left right kl kr (at_pos r kr)).
Proof.
  intros Hr. unfold right_keys, compared.
  by rewrite list_lookup_fmap, (key_column_lookup _ _ _ _ Hr).
Qed.

Lemma left_keys_lookup_inv left right kl kr i k :
  left_keys left right kl kr !! i = Some k →
  ∃ l, cells left !! i = Some l ∧ k = as_key left right kl kr (at_pos l kl).
Proof.
  unfold left_keys, compared. rewrite list_lookup_fmap.
  destruct (key_column kl left !! i) as [k'|] eqn:Hk; intros; simplify_eq/=.
  apply key_column_lookup_inv in Hk as (l & Hl & ->). eauto.
Qed.

Lemma right_keys_lookup_inv left right kl kr j k :
  right_keys left right kl kr !! j = Some k →
  ∃ r, cells right !! j = Some r ∧ k = as_key left right kl kr (at_pos r kr).
Proof.
  unfold right_keys, compared. rewrite list_lookup_fmap.
  destruct (key_column kr right !! j) as [k'|] eqn:Hk; intros; simplify_eq/=.
  apply key_column_lookup_inv in Hk as (r & Hr & ->). eauto.
Qed.

Lemma length_left_keys left right kl kr :
  length (left_keys left right kl kr) = len left.
Proof. unfold left_keys, compared. by rewrite length_fmap, length_key_column. Qed.

Lemma length_right_keys left right kl kr :
  length (right_keys left right kl kr) = len right.
Proof. unfold right_keys, compared. by rewrite length_fmap, length_key_column. Qed.

(** The entries of the join, by the rows they come from. *)
Lemma entry_rows left right kl kr e :
  e ∈ indexers left right kl kr ↔
  (∃ i j l r, e = (Some i, Some j) ∧ cells left !! i = Some l ∧
              cells right !! j = Some r ∧
              as_key left right kl kr (at_pos l kl)
              = as_key left right kl kr (at_pos r kr)) ∨
  (∃ i l, e = (Some i, None) ∧ cells left !! i = Some l ∧
          as_key left right kl kr (at_pos l kl) ∉ right_keys left right kl kr) ∨
  (∃ j r, e = (None, Some j) ∧ cells right !! j = Some r ∧
          as_key left right kl kr (at_pos r kr) ∉ left_keys left right kl kr).
Proof.
  unfold indexers. rewrite elem_of_full_outer_join. split.
  - intros [(i & j & k & -> & Hi & Hj)|[(i & k & -> & Hi & Hk)
                                       |(j & k & -> & Hj & Hk)]].
    + apply left_keys_lookup_inv in Hi as (l & Hl & ->).
      apply right_keys_lookup_inv in Hj as (r & Hr & Hkey).
      left. eauto 10.
    + apply left_keys_lookup_inv in Hi as (l & Hl & ->). right; left. eauto.
    + apply right_keys_lookup_inv in Hj as (r & Hr & ->). right; right. eauto.
  - intros [(i & j & l & r & -> & Hl & Hr & Hkey)|[(i & l & -> & Hl & Hk)
                                                 |(j & r & -> & Hr & Hk)]].
    + left. exists i, j, (as_key left right kl kr (at_pos l kl)).
      split; [done|]. split; [by apply left_keys_lookup|].
      rewrite Hkey. by apply right_keys_lookup.
    + right; left. exists i, (as_key left right kl kr (at_pos l kl)).
      split; [done|]. split; [by apply left_keys_lookup|done].
    + right; right. exists j, (as_key left right kl kr (at_pos r kr)).
      split; [done|]. split; [by apply right_keys_lookup|done].
Qed.

Lemma lacks_left_elem (entries : list (option nat * option nat)) oj :
  (None, oj) ∈ entries → lacks_left entries = true.
Proof.
  intros Hin. unfold lacks_left. rewrite bool_decide_eq_true.
  apply list_elem_of_fmap. by exists (None, oj).
Qed.

Lemma lacks_right_elem (entries : list (option nat * option nat)) oi :
  (oi, None) ∈ entries → lacks_right entries = true.
Proof.
  intros Hin. unfold lacks_right. rewrite bool_decide_eq_true.
  apply list_elem_of_fmap. by exists (oi, None).
Qed.

(** *** The output rows, by the rows they come from *)

Lemma join_row_paired lay kl kr left right i j l r :
  cells left !! i = Some l → cells right !! j = Some r →
  join_row lay kl kr left right (Some i, Some j)
  = left_block lay kl kr left right l ++ right_block lay kl kr left right r.
Proof.
  intros Hl Hr. unfold join_row, left_block, right_block. simpl.
  rewrite Hl, Hr. simpl.
  destruct lay, (lacks_left (indexers left right kl kr)); done.
Qed.

Lemma join_row_left_only lay kl kr left right i l :
  kr < length (columns right) → cells left !! i = Some l →
  join_row lay kl kr left right (Some i, None)
  = left_block lay kl kr left right l ++ right_blank lay right.
Proof.
  intros Hkr Hl. unfold join_row, left_block, right_blank. simpl.
  rewrite Hl. simpl.
  destruct lay, (lacks_left (indexers left right kl kr));
    by rewrite ?delete_nulls.
Qed.

Lemma join_row_right_only lay kl kr left right j r :
  (None, Some j) ∈ indexers left right kl kr → cells right !! j = Some r →
  join_row lay kl kr left right (None, Some j)
  = left_blank lay kl kr left right (at_pos r kr)
    ++ right_block lay kl kr left right r.
Proof.
  intros Hin%lacks_left_elem Hr. unfold join_row, left_blank, right_block.
  simpl. rewrite Hr, Hin. simpl. by destruct lay.
Qed.

(** Without an unmatched row on the other side, a row is held as it is. *)
Lemma left_block_id lay kl kr left right l :
  (∀ k, k ∈ right_keys left right kl kr → k ∈ left_keys left right kl kr) →
  left_block lay kl kr left right l = l.
Proof.
  intros Hall. unfold left_block.
  destruct (lacks_left (indexers left right kl kr)) eqn:Hlacks.
  { apply lacks_left_iff in Hlacks as (k & Hk & Hn). destruct Hn. eauto. }
  by destruct lay.
Qed.

Lemma right_block_id lay kl kr left right r :
  (∀ k, k ∈ left_keys left right kl kr → k ∈ right_keys left right kl kr) →
  right_block lay kl kr left right r
  = match lay with BothKeys => r | SharedKey => delete kr r end.
Proof.
  intros Hall. unfold right_block.
  destruct (lacks_right (indexers left right kl kr)) eqn:Hlacks.
  { apply lacks_right_iff in Hlacks as (k & Hk & Hn). destruct Hn. eauto. }
  by destruct lay.
Qed.

End Rows.

(** ** The Merger *)

Section Merger.
Context {scalar : Type} `{!EqDecision scalar} `{!Dtypes scalar}.
Implicit Types (left right merged : DataFrame scalar) (key : cell scalar).
Implicit Types (l r o : list (cell scalar)).

Lemma cells_outer_join left right lay kl kr :
  cells (outer_join left right lay kl kr)
  = join_row lay kl kr left right <$> indexers left right kl kr.
Proof. unfold outer_join, cells. simpl. apply cells_range_index. Qed.

Lemma len_outer_join left right lay kl kr :
  len (outer_join left right lay kl kr)
  = length (indexers left right kl kr).
Proof.
  unfold outer_join, len, range_index. simpl.
  by rewrite length_imap, length_fmap.
Qed.

Lemma accepts_true left right left_on right_on kl kr :
  accepts left right left_on right_on kl kr = true ↔
  ambiguous left_on (columns left) = false ∧
  ambiguous right_on (columns right) = false ∧
  mergeable (key_column kl left) (key_column kr right) = true ∧
  clashes (layout_of left_on right_on) kr (columns left) (columns right) = [].
Proof.
  unfold accepts.
  rewrite !andb_true_iff, !negb_true_iff, bool_decide_eq_true. tauto.
Qed.

(** What [pd.merge] gives when both keys are among the columns. *)
Lemma pd_merge_cases left right left_on right_on kl kr :
  get_loc left_on (columns left) = Some kl →
  get_loc right_on (columns right) = Some kr →
  if accepts left right left_on right_on kl kr
  then pd_merge left right left_on right_on
       = inr (outer_join left right (layout_of left_on right_on) kl kr)
  else ∃ e, pd_merge left right left_on right_on = inl e.
Proof.
  intros Hkl Hkr.
  destruct (accepts left right left_on right_on kl kr) eqn:Hacc.
  - apply accepts_true in Hacc as (Hal & Har & Hok & Hclash).
    unfold pd_merge, key_loc. by rewrite Hkl, Hkr, Hal, Har, Hok, Hclash.
  - unfold pd_merge, key_loc. rewrite Hkl, Hkr.
    destruct (ambiguous right_on (columns right)) eqn:Har; [by eauto|].
    destruct (ambiguous left_on (columns left)) eqn:Hal; [by eauto|].
    destruct (mergeable _ _) eqn:Hok; simpl; [|by eauto].
    destruct (clashes _ _ _ _) eqn:Hclash; [|by eauto].
    assert (accepts left right left_on right_on kl kr = true) as Hyes
      by (by apply accepts_true).
    congruence.
Qed.

(** With both keys among the columns and frames that [pd.merge] accepts,
    [merge_data] returns the join. *)
Lemma merge_data_joined left right left_on right_on kl kr :
  get_loc left_on (columns left) = Some kl →
  get_loc right_on (columns right) = Some kr →
  accepts left right left_on right_on kl kr = true →
  ∃ out,
    merge_data left right left_on right_on ()
    = (out, (), inr (outer_join left right (layout_of left_on right_on) kl kr)).
Proof.
  intros Hkl Hkr Hok. unfold merge_data.
  rewrite !decide_False.
  2:{ intros Hn. apply Hn, get_loc_elem_of. by rewrite Hkr. }
  2:{ intros Hn. apply Hn, get_loc_elem_of. by rewrite Hkl. }
  pose proof (pd_merge_cases left right left_on right_on kl kr Hkl Hkr)
    as Hcase.
  rewrite Hok in Hcase. rewrite Hcase. simpl. eexists. reflexivity.
Qed.

(** C1, as the code has it.  When both keys are columns of their frames
    and [pd.merge] accepts the frames, [merge_data] returns a
    frame in which every row of the left frame is held by some output
    row, followed by nulls in the place of the right frame when no right
    row has its key and by a right row with its key otherwise; and every
    row of the right frame is held by some output row, after nulls in
    the place of the left frame when no left row has its key and after a
    left row with its key otherwise.  A row is held as [left_block] and
    [right_block] tell: with its cells promoted when some output row has
    no row of its frame, and as it is when there is no such row. *)
Theorem merge_data_outer_complete left right left_on right_on kl kr :
  get_loc left_on (columns left) = Some kl →
  get_loc right_on (columns right) = Some kr →
  accepts left right left_on right_on kl kr = true →
  ∃ out merged,
    merge_data left right left_on right_on () = (out, (), inr merged) ∧
    let lay := layout_of left_on right_on in
    let lkeys := left_keys left right kl kr in
    let rkeys := right_keys left right kl kr in
    let key := as_key left right kl kr in
    (∀ i l, cells left !! i = Some l →
       ∃ rp, left_block lay kl kr left right l ++ rp ∈ cells merged ∧
         (key (at_pos l kl) ∉ rkeys → rp = right_blank lay right) ∧
         (key (at_pos l kl) ∈ rkeys →
          ∃ r, r ∈ cells right ∧ key (at_pos r kr) = key (at_pos l kl) ∧
               rp = right_block lay kl kr left right r)) ∧
    (∀ j r, cells right !! j = Some r →
       ∃ lp, lp ++ right_block lay kl kr left right r ∈ cells merged ∧
         (key (at_pos r kr) ∉ lkeys →
          lp = left_blank lay kl kr left right (at_pos r kr)) ∧
         (key (at_pos r kr) ∈ lkeys →
          ∃ l, l ∈ cells left ∧ key (at_pos l kl) = key (at_pos r kr) ∧
               lp = left_block lay kl kr left right l)) ∧
    ((∀ k, k ∈ rkeys → k ∈ lkeys) →
     ∀ l, left_block lay kl kr left right l = l) ∧
    ((∀ k, k ∈ lkeys → k ∈ rkeys) →
     ∀ r, right_block lay kl kr left right r
          = match lay with BothKeys => r | SharedKey => delete kr r end).
Proof.
  intros Hkl Hkr Hok.
  destruct (merge_data_joined left right left_on right_on kl kr)
    as [out Hm]; [done..|].
  exists out, (outer_join left right (layout_of left_on right_on) kl kr).
  split; [done|]. simpl. rewrite cells_outer_join.
  pose proof (get_loc_lt _ _ _ Hkr) as Hkr'.
  set (lay := layout_of left_on right_on). clearbody lay.
  split; [|split; [|split]].
  - intros i l Hl.
    destruct (decide (as_key left right kl kr (at_pos l kl)
                      ∈ right_keys left right kl kr)) as [Hin|Hnin].
    + apply list_elem_of_lookup in Hin as Hj. destruct Hj as [j Hj].
      apply right_keys_lookup_inv in Hj as (r & Hr & Hkey).
      exists (right_block lay kl kr left right r). split; [|split].
      * rewrite <-(join_row_paired _ _ _ _ _ i j) by done.
        apply list_elem_of_fmap_2, entry_rows. left. eauto 10.
      * done.
      * intros _. exists r. split; [by eapply list_elem_of_lookup_2|done].
    + exists (right_blank lay right). split; [|split]; [|done..].
      rewrite <-(join_row_left_only _ _ _ _ _ i) by done.
      apply list_elem_of_fmap_2, entry_rows. right; left. eauto.
  - intros j r Hr.
    destruct (decide (as_key left right kl kr (at_pos r kr)
                      ∈ left_keys left right kl kr)) as [Hin|Hnin].
    + apply list_elem_of_lookup in Hin as Hi. destruct Hi as [i Hi].
      apply left_keys_lookup_inv in Hi as (l & Hl & Hkey).
      exists (left_block lay kl kr left right l). split; [|split].
      * rewrite <-(join_row_paired _ _ _ _ _ i j) by done.
        apply list_elem_of_fmap_2, entry_rows. left. eauto 10.
      * done.
      * intros _. exists l. split; [by eapply list_elem_of_lookup_2|done].
    + assert ((None, Some j) ∈ indexers left right kl kr) as He.
      { apply entry_rows. right; right. eauto. }
      exists (left_blank lay kl kr left right (at_pos r kr)).
      split; [|split]; [|done..].
      rewrite <-(join_row_right_only _ _ _ _ _ j) by done.
      by apply list_elem_of_fmap_2.
  - intros Hall l. by apply left_block_id.
  - intros Hall r. by apply right_block_id.
Qed.

(** C2, as the code has it.  When both keys are columns of their frames
    and [pd.merge] accepts the frames, the merged frame has at
    least as many rows as either input; it has exactly
    [len left + len right] rows when no left key equals a right key (two
    missing keys being equal); and when no key is repeated on both
    sides, it has at most [len left + len right] rows, that many only
    when no left key equals a right key. *)
Theorem merge_data_row_count left right left_on right_on kl kr :
  get_loc left_on (columns left) = Some kl →
  get_loc right_on (columns right) = Some kr →
  accepts left right left_on right_on kl kr = true →
  ∃ out merged,
    merge_data left right left_on right_on () = (out, (), inr merged) ∧
    let lkeys := left_keys left right kl kr in
    let rkeys := right_keys left right kl kr in
    len left `max` len right ≤ len merged ∧
    (no_match lkeys rkeys → len merged = len left + len right) ∧
    (one_side_unique lkeys rkeys →
       len merged ≤ len left + len right ∧
       (len merged = len left + len right → no_match lkeys rkeys)).
Proof.
  intros Hkl Hkr Hok.
  destruct (merge_data_joined left right left_on right_on kl kr)
    as [out Hm]; [done..|].
  eexists out, _. split; [done|]. simpl. rewrite len_outer_join.
  pose proof (full_outer_join_count (left_keys left right kl kr)
                (right_keys left right kl kr)) as Hcount.
  simpl in Hcount. by rewrite length_left_keys, length_right_keys in Hcount.
Qed.

Lemma singleton_filter {A} (l : list A) (x : A) :
  length l = 1 → x ∈ l → l = [x].
Proof.
  destruct l as [|y [|??]]; try done. by intros _ ->%list_elem_of_singleton.
Qed.

Lemma paired_iff (lkeys rkeys : list (cell scalar)) i j :
  (Some i, Some j) ∈ full_outer_join lkeys rkeys ↔
  ∃ k, lkeys !! i = Some k ∧ rkeys !! j = Some k.
Proof. rewrite elem_of_full_outer_join. naive_solver. Qed.

(** C3, as the code has it.  When both keys are columns of their frames
    and [pd.merge] accepts the frames, missing keys are equal to each
    other and to no other key: a row whose key is missing is paired with exactly the
    rows of the other frame whose key is missing too.  It occurs once
    per such row, and once when there is none; in that case its only
    output row is unpaired and has nulls in the place of the other
    frame. *)
Theorem merge_data_null_keys left right left_on right_on kl kr :
  get_loc left_on (columns left) = Some kl →
  get_loc right_on (columns right) = Some kr →
  accepts left right left_on right_on kl kr = true →
  ∃ out merged,
    merge_data left right left_on right_on () = (out, (), inr merged) ∧
    let lay := layout_of left_on right_on in
    let lkeys := key_column kl left in
    let rkeys := key_column kr right in
    let entries := indexers left right kl kr in
    let row := join_row lay kl kr left right in
    cells merged ≡ₚ row <$> entries ∧
    (∀ i l, cells left !! i = Some l → at_pos l kl = None →
       (∀ j, (Some i, Some j) ∈ entries ↔ rkeys !! j = Some None) ∧
       length (filter (λ e, e.1 = Some i) entries)
         = 1 `max` occurrences None rkeys ∧
       (None ∉ rkeys →
        filter (λ e, e.1 = Some i) entries = [(Some i, None)] ∧
        row (Some i, None)
        = left_block lay kl kr left right l ++ right_blank lay right)) ∧
    (∀ j r, cells right !! j = Some r → at_pos r kr = None →
       (∀ i, (Some i, Some j) ∈ entries ↔ lkeys !! i = Some None) ∧
       length (filter (λ e, e.2 = Some j) entries)
         = 1 `max` occurrences None lkeys ∧
       (None ∉ lkeys →
        filter (λ e, e.2 = Some j) entries = [(None, Some j)] ∧
        row (None, Some j)
        = left_blank lay kl kr left right None
          ++ right_block lay kl kr left right r)).
Proof.
  intros Hkl Hkr Hok.
  destruct (merge_data_joined left right left_on right_on kl kr)
    as [out Hm]; [done..|].
  eexists out, _. split; [done|]. simpl.
  split; [by rewrite cells_outer_join|].
  pose proof (get_loc_lt _ _ _ Hkr) as Hkr'.
  set (lay := layout_of left_on right_on). clearbody lay.
  unfold indexers.
  split.
  - intros i l Hl Hnone.
    pose proof (left_keys_lookup left right kl kr _ _ Hl) as Hi.
    rewrite Hnone in Hi. simpl in Hi.
    rewrite <-(compared_None (key_column kl left) (key_column kr right)
                 (key_column kr right)).
    rewrite <-(occurrences_None_compared (key_column kl left)
                 (key_column kr right) (key_column kr right)).
    fold (right_keys left right kl kr).
    split; [|split].
    + intros j. rewrite paired_iff, Hi.
      rewrite <-(compared_lookup_None (key_column kl left)
                   (key_column kr right) (key_column kr right)).
      fold (right_keys left right kl kr). naive_solver.
    + by apply count_left_row.
    + intros Hno. split.
      { apply singleton_filter.
        - rewrite (count_left_row _ _ _ _ Hi).
          by rewrite (proj2 (occurrences_0 _ _) Hno).
        - apply list_elem_of_filter. split; [done|].
          apply elem_of_full_outer_join. right; left. eauto. }
      by apply join_row_left_only.
  - intros j r Hr Hnone.
    pose proof (right_keys_lookup left right kl kr _ _ Hr) as Hj.
    rewrite Hnone in Hj. simpl in Hj.
    rewrite <-(compared_None (key_column kl left) (key_column kr right)
                 (key_column kl left)).
    rewrite <-(occurrences_None_compared (key_column kl left)
                 (key_column kr right) (key_column kl left)).
    fold (left_keys left right kl kr).
    split; [|split].
    + intros i. rewrite paired_iff, Hj.
      rewrite <-(compared_lookup_None (key_column kl left)
                   (key_column kr right) (key_column kl left)).
      fold (left_keys left right kl kr). naive_solver.
    + by apply count_right_row.
    + intros Hno.
      assert ((None, Some j) ∈ indexers left right kl kr) as He.
      { apply elem_of_full_outer_join. right; right. eauto. }
      split.
      { apply singleton_filter.
        - rewrite (count_right_row _ _ _ _ Hj).
          by rewrite (proj2 (occurrences_0 _ _) Hno).
        - by apply list_elem_of_filter. }
      rewrite (join_row_right_only _ _ _ _ _ _ r) by done.
      by rewrite Hnone.
Qed.

Lemma merge_data_rejects left right left_on right_on :
  left_on ∉ columns left ∨ right_on ∉ columns right →
  merge_data left right left_on right_on ()
  = ([Print (if decide (left_on ∉ columns left)
             then "'" +:+ left_on
                  +:+ "' not found in the first dataset (USAspending)."
             else "'" +:+ right_on
                  +:+ "' not found in the second dataset (DOGE).")],
     (), inr empty_frame).
Proof.
  intros Hmissing. unfold merge_data.
  destruct (decide (left_on ∉ columns left)) as [|Hl]; [done|].
  rewrite decide_True by tauto. done.
Qed.

(** C4. Key validation: when the left key is not a column of the left
    frame, or the right key not a column of the right frame, [merge_data]
    returns the empty frame (no rows, no columns) after one diagnostic
    line, without reaching the join and without raising. *)
Theorem merge_data_missing_key left right left_on right_on :
  left_on ∉ columns left ∨ right_on ∉ columns right →
  merge_data left right left_on right_on ()
  = ([Print (if decide (left_on ∉ columns left)
             then "'" +:+ left_on
                  +:+ "' not found in the first dataset (USAspending)."
             else "'" +:+ right_on
                  +:+ "' not found in the second dataset (DOGE).")],
     (), inr empty_frame)
  ∧ len (@empty_frame scalar) = 0 ∧ columns (@empty_frame scalar) = [].
Proof. intros Hmissing. split; [by apply merge_data_rejects|done]. Qed.

(** Whatever the keys, [merge_data] returns or raises what
    [merge_outcome] tells, makes no request and writes no file. *)
Lemma merge_data_run left right left_on right_on :
  ∃ out,
    merge_data left right left_on right_on ()
    = (out, (), merge_outcome left right left_on right_on) ∧
    files_written out = [] ∧ requests out = [].
Proof.
  unfold merge_outcome.
  destruct (decide (left_on ∉ columns left ∨ right_on ∉ columns right))
    as [Hmissing|Hkeys].
  - rewrite (merge_data_rejects _ _ _ _ Hmissing). eauto.
  - unfold merge_data. rewrite !decide_False by tauto.
    cbv [mbind M_bind print emit lift].
    destruct (pd_merge left right left_on right_on); simpl; eauto.
Qed.

(** The outcome of [merge_data], by its inputs. *)
Lemma merge_outcome_cases left right left_on right_on :
  (left_on ∉ columns left ∨ right_on ∉ columns right) ∧
  merge_outcome left right left_on right_on = inr empty_frame
  ∨ ∃ kl kr,
      get_loc left_on (columns left) = Some kl ∧
      get_loc right_on (columns right) = Some kr ∧
      if accepts left right left_on right_on kl kr
      then merge_outcome left right left_on right_on
           = inr (outer_join left right (layout_of left_on right_on) kl kr)
      else ∃ e, merge_outcome left right left_on right_on = inl e.
Proof.
  unfold merge_outcome.
  destruct (decide (left_on ∉ columns left ∨ right_on ∉ columns right))
    as [Hmissing|Hkeys]; [by left|right].
  assert (left_on ∈ columns left) as [kl Hkl]%get_loc_elem_of
    by (apply dec_stable; tauto).
  assert (right_on ∈ columns right) as [kr Hkr]%get_loc_elem_of
    by (apply dec_stable; tauto).
  exists kl, kr. split; [done|]. split; [done|].
  by apply pd_merge_cases.
Qed.

End Merger.

(** ** The Archive Fetcher *)

Section ArchiveFetcher.
Context {scalar : Type} `{!EqDecision scalar} {json : Type}.
Implicit Types (env : @Env scalar json) (z : ZipFile) (s : @fetch_locals scalar).

Lemma extract_member_run env z file s :
  extract_member env z file s =
    if endswith file ".csv" then
      match read_member env z file with
      | inr df =>
          ([Print ("Extracting and reading " +:+ file)],
           mkFetchLocals (dataframes s ++ [df]) true, inr ())
      | inl e =>
          ([Print ("Extracting and reading " +:+ file);
            Print ("Error reading CSV file " +:+ file +:+ ": " +:+ exn_str e)],
           mkFetchLocals (dataframes s) true, inr ())
      end
    else ([], s, inr ()).
Proof.
  unfold extract_member, read_member. destruct (endswith file ".csv"); [|done].
  destruct s as [dfs found]. cbv [mbind M_bind modify print emit try_except lift mret M_ret set_csv_files_found set_dataframes dataframes csv_files_found].
  destruct (zopen z file) as [e|member]; simpl; [done|].
  destruct (pd_read_csv env member) as [e|df]; simpl; done.
Qed.

Lemma extracted_cons env z file names :
  extracted env z (file :: names)
  = (if endswith file ".csv"
     then option_list (parsed (read_member env z file)) else [])
    ++ extracted env z names.
Proof.
  unfold extracted. rewrite filter_cons.
  destruct (endswith file ".csv"); simpl; [|done].
  by destruct (parsed _).
Qed.

(** The loop over the members: it never raises, and appends the frames of
    the members that are selected and parse. *)
Lemma for_each_extract env z names s :
  ∃ out,
    for_each names (extract_member env z) s
    = (out,
       mkFetchLocals (dataframes s ++ extracted env z names)
         (csv_files_found s || existsb (λ file, endswith file ".csv") names),
       inr ()) ∧
    (requests out = [] ∧ files_written out = []) ∧
    (existsb (λ file, endswith file ".csv") names = false → out = []).
Proof.
  revert s. induction names as [|file names IH]; intros s.
  { exists []. destruct s as [dfs found]. simpl.
    by rewrite app_nil_r, orb_false_r. }
  simpl. unfold mbind, M_bind at 1. rewrite extract_member_run.
  rewrite extracted_cons.
  destruct (endswith file ".csv") eqn:Hcsv; simpl.
  - destruct (read_member env z file) as [e|df]; simpl.
    all: match goal with |- context [for_each _ _ ?s'] =>
           destruct (IH s') as (out & -> & Hreq & _) end.
    all: simpl; eexists;
      (split; [by rewrite <-?app_assoc, ?orb_true_r | split; done]).
  - destruct (IH s) as (out & -> & Hreq & Hnil). exists out.
    by rewrite orb_false_r || done.
Qed.

Lemma raise_for_status_run {S} (response : Response) (s : S) :
  (∃ e, @raise_for_status scalar S response s = ([], s, inl (RequestException e)) ∧
        400 ≤ status_code response < 600) ∨
  (@raise_for_status scalar S response s = ([], s, inr ()) ∧
   ¬ 400 ≤ status_code response < 600).
Proof.
  unfold raise_for_status. repeat case_bool_decide.
  - left. eexists. split; [done|lia].
  - left. eexists. split; [done|lia].
  - right. split; [done|lia].
Qed.

(** The run of the fetch: it returns [fetched env], whatever the name. *)
Lemma fetch_usaspending_data_run env file_name s0 :
  ∃ out s,
    fetch_usaspending_data env file_name s0 = (out, s, inr (fetched env)) ∧
    requests out = [download_url] ∧ files_written out = [].
Proof.
  unfold fetch_usaspending_data, fetched, get.
  cbv [mbind M_bind modify print emit try_except lift mret M_ret gets].
  simpl.
  destruct (requests_get env download_url) as [e|response]; simpl.
  { destruct e; simpl; eauto. }
  destruct (raise_for_status_run response (set_dataframes [] s0))
    as [(e & -> & Hst)|[-> Hst]]; simpl.
  { rewrite bool_decide_eq_true_2 by done. eauto. }
  rewrite bool_decide_eq_false_2 by done.
  destruct (zipfile_ZipFile env (content response)) as [e|z]; simpl.
  { destruct e; simpl; eauto. }
  match goal with |- context [for_each _ _ ?s'] =>
    destruct (for_each_extract env z (namelist z) s')
      as (out & -> & [Hreq Hfiles] & _)
  end.
  simpl. destruct (existsb _ _); simpl; eexists _, _; split; try done.
  all: unfold requests, files_written in *; simpl.
  all: by rewrite !omap_app, Hreq, Hfiles.
Qed.

Lemma fetched_archive env response z :
  requests_get env download_url = inr response →
  ¬ 400 ≤ status_code response < 600 →
  zipfile_ZipFile env (content response) = inr z →
  fetched env = extracted env z (namelist z).
Proof.
  intros Hget Hst Hzip. unfold fetched.
  by rewrite Hget, bool_decide_eq_false_2, Hzip.
Qed.

Lemma existsb_endswith_false (names : list string) :
  Forall (λ file, endswith file ".csv" = false) names →
  existsb (λ file, endswith file ".csv") names = false.
Proof. induction 1 as [|file names Hfile _ IH]; simpl; [done|]. by rewrite Hfile. Qed.

Lemma extracted_no_csv env z (names : list string) :
  Forall (λ file, endswith file ".csv" = false) names →
  extracted env z names = [].
Proof.
  induction 1 as [|file names Hfile _ IH]; [done|].
  by rewrite extracted_cons, Hfile.
Qed.

(** An archive without a member named [*.csv]. *)
Lemma fetch_usaspending_data_no_csv env file_name s0 response z :
  requests_get env download_url = inr response →
  ¬ 400 ≤ status_code response < 600 →
  zipfile_ZipFile env (content response) = inr z →
  Forall (λ file, endswith file ".csv" = false) (namelist z) →
  ∃ s,
    fetch_usaspending_data env file_name s0
    = ([Print ("Downloading " +:+ file_name +:+ " from USAspending...");
        Get download_url;
        Print ("No CSV file found in " +:+ file_name)], s, inr []).
Proof.
  intros Hget Hst Hzip Hnames.
  unfold fetch_usaspending_data, get.
  cbv [mbind M_bind modify print emit try_except lift mret M_ret gets].
  simpl. rewrite Hget. simpl.
  destruct (raise_for_status_run response (set_dataframes [] s0))
    as [(e & _ & ?)|[-> _]]; [done|]. simpl. rewrite Hzip. simpl.
  match goal with |- context [for_each _ _ ?s'] =>
    destruct (for_each_extract env z (namelist z) s') as (out & -> & _ & Hout)
  end.
  rewrite Hout, existsb_endswith_false, extracted_no_csv
    by auto using existsb_endswith_false.
  simpl. eauto.
Qed.

(** C5. Error isolation of the Archive Fetcher: the fetch always returns a
    list and raises nothing.  After a failed download (no response, or a
    4xx/5xx status) or a failed opening of the archive the list is empty.
    Otherwise it holds the frame of every member named [*.csv] that
    parses, in archive order: a member that fails to parse is left out
    and the others are still returned. *)
Theorem fetch_usaspending_data_isolation env file_name s0 :
  ∃ out s dfs,
    fetch_usaspending_data env file_name s0 = (out, s, inr dfs) ∧
    (∀ e, requests_get env download_url = inl e → dfs = []) ∧
    (∀ response, requests_get env download_url = inr response →
       (400 ≤ status_code response < 600 → dfs = []) ∧
       (¬ 400 ≤ status_code response < 600 →
        (∀ e, zipfile_ZipFile env (content response) = inl e → dfs = []) ∧
        (∀ z, zipfile_ZipFile env (content response) = inr z →
           dfs = extracted env z (namelist z) ∧
           ∀ file df, file ∈ namelist z → endswith file ".csv" = true →
                      read_member env z file = inr df → df ∈ dfs))).
Proof.
  destruct (fetch_usaspending_data_run env file_name s0) as (out & s & Hrun & _).
  exists out, s, (fetched env). split; [done|]. split.
  { intros e He. unfold fetched. by rewrite He. }
  intros response Hget. split.
  { intros Hst. unfold fetched. by rewrite Hget, bool_decide_eq_true_2. }
  intros Hst. split.
  { intros e He. unfold fetched.
    by rewrite Hget, bool_decide_eq_false_2, He. }
  intros z Hzip. rewrite (fetched_archive _ _ _ Hget Hst Hzip).
  split; [done|]. intros file df Hfile Hcsv Hread.
  unfold extracted. apply list_elem_of_omap. exists file.
  rewrite list_elem_of_filter, Hread. done.
Qed.

(** C9. The archive name does not interfere: two fetches under different
    names, against the same network and parsers, return the same list of
    frames, and each requests the one fixed address. *)
Theorem fetch_usaspending_data_name_independent env name1 name2 s1 s2 :
  ∃ out1 out2 s1' s2' dfs,
    fetch_usaspending_data env name1 s1 = (out1, s1', inr dfs) ∧
    fetch_usaspending_data env name2 s2 = (out2, s2', inr dfs) ∧
    requests out1 = [download_url] ∧
    requests out2 = [download_url].
Proof.
  destruct (fetch_usaspending_data_run env name1 s1)
    as (out1 & s1' & ? & ? & _).
  destruct (fetch_usaspending_data_run env name2 s2)
    as (out2 & s2' & ? & ? & _).
  by exists out1, out2, s1', s2', (fetched env).
Qed.

(** C10. The suffix filter: from an archive that opens, the fetch returns
    the frames of the members whose name ends with [.csv] (those that
    parse), and nothing else; the result is the same for any archive with
    the same names and the same members under the [.csv] names; with no
    such name it returns the empty list after the line
    [No CSV file found in <name>]. *)
Theorem fetch_usaspending_data_csv_filter env file_name s0 response z :
  requests_get env download_url = inr response →
  ¬ 400 ≤ status_code response < 600 →
  zipfile_ZipFile env (content response) = inr z →
  ∃ out s dfs,
    fetch_usaspending_data env file_name s0 = (out, s, inr dfs) ∧
    dfs = omap (λ file, parsed (read_member env z file))
               (filter (λ file, endswith file ".csv" = true) (namelist z)) ∧
    (∀ z', namelist z' = namelist z →
           (∀ file, endswith file ".csv" = true → zopen z' file = zopen z file) →
           extracted env z' (namelist z') = dfs) ∧
    (Forall (λ file, endswith file ".csv" = false) (namelist z) →
     dfs = [] ∧
     out = [Print ("Downloading " +:+ file_name +:+ " from USAspending...");
            Get download_url;
            Print ("No CSV file found in " +:+ file_name)]).
Proof.
  intros Hget Hst Hzip.
  destruct (fetch_usaspending_data_run env file_name s0) as (out & s & Hrun & _).
  rewrite (fetched_archive _ _ _ Hget Hst Hzip) in Hrun.
  exists out, s, (extracted env z (namelist z)).
  split; [done|]. split; [done|]. split.
  - intros z' Hnames Hopen. rewrite Hnames. unfold extracted.
    apply list_omap_ext, Forall_Forall2_diag, Forall_forall.
    intros file [Hcsv _]%list_elem_of_filter.
    unfold read_member. by rewrite Hopen.
  - intros Hnone. split; [by apply extracted_no_csv|].
    destruct (fetch_usaspending_data_no_csv env file_name s0 response z)
      as [s' Hrun']; [done..|].
    congruence.
Qed.

End ArchiveFetcher.

(** ** The Feed Fetcher *)

Section FeedFetcher.
Context {scalar : Type} `{!EqDecision scalar} {json : Type}.
Implicit Types (env : @Env scalar json).

Lemma fetch_doge_contracts_run env per_page :
  ∃ out,
    fetch_doge_contracts env per_page () = (out, (), inr (fed env per_page)) ∧
    files_written out = [].
Proof.
  unfold fetch_doge_contracts, fed, get. fold (feed_address per_page).
  cbv [mbind M_bind modify print emit try_except lift mret M_ret gets].
  simpl.
  destruct (requests_get env (feed_address per_page)) as [e|response]; simpl.
  { destruct e; simpl; eauto. }
  destruct (raise_for_status_run (scalar:=scalar) response ())
    as [(e & -> & Hst)|[-> Hst]]; simpl.
  { rewrite bool_decide_eq_true_2 by done. eauto. }
  rewrite bool_decide_eq_false_2 by done.
  destruct (json_loads env (content response)) as [e|data]; simpl.
  { destruct e; simpl; eauto. }
  destruct (pd_DataFrame env data) as [e|df]; simpl.
  { destruct e; simpl; eauto. }
  eauto.
Qed.

(** C6. The Feed Fetcher is total: it always returns a frame and raises
    nothing; after a failed request (no response, or a 4xx/5xx status) or
    a body that does not decode as JSON, the frame is the empty one, with
    no rows and no columns. *)
Theorem fetch_doge_contracts_total env per_page :
  ∃ out df,
    fetch_doge_contracts env per_page () = (out, (), inr df) ∧
    (∀ e, requests_get env (feed_address per_page) = inl e →
          df = empty_frame) ∧
    (∀ response, requests_get env (feed_address per_page) = inr response →
       (400 ≤ status_code response < 600 → df = empty_frame) ∧
       (∀ e, json_loads env (content response) = inl e → df = empty_frame)) ∧
    len (@empty_frame scalar) = 0 ∧ columns (@empty_frame scalar) = [].
Proof.
  destruct (fetch_doge_contracts_run env per_page) as (out & Hrun & _).
  exists out, (fed env per_page). split; [done|].
  unfold fed. split; [|split; [|done]].
  - intros e ->. done.
  - intros response ->. split.
    + intros Hst. by rewrite bool_decide_eq_true_2.
    + intros e ->. by case_bool_decide.
Qed.

End FeedFetcher.

(** ** The Concatenator *)

Section Concatenator.
Context {scalar : Type} `{!EqDecision scalar}.
Implicit Types (df d : DataFrame scalar) (dfs : list (DataFrame scalar)).
Implicit Types (r : list (cell scalar)).






End Concatenator.

(** ** The Orchestrator *)

Section Orchestrator.
Context {scalar : Type} `{!EqDecision scalar} `{!Dtypes scalar} {json : Type}.
Implicit Types (env : @Env scalar json).

Lemma files_written_app (out1 out2 : list (@event scalar)) :
  files_written (out1 ++ out2) = files_written out1 ++ files_written out2.
Proof. apply omap_app. Qed.

Lemma files_written_print (line : string) (out : list (@event scalar)) :
  files_written (Print line :: out) = files_written out.
Proof. done. Qed.

Lemma last_skip {A} (l1 l2 : list A) (x : A) :
  last l2 = Some x → last (l1 ++ l2) = Some x.
Proof.
  intros Hlast. destruct l2 as [|y l2] using rev_ind; [done|].
  rewrite last_snoc in Hlast. simplify_eq.
  by rewrite app_assoc, last_snoc.
Qed.

Lemma last_cons_skip {A} (y : A) (l : list A) (x : A) :
  last l = Some x → last (y :: l) = Some x.
Proof. apply (last_skip [y]). Qed.

Ltac last_event :=
  repeat first [reflexivity | apply last_cons_skip | apply last_skip].
Ltac no_files :=
  repeat (rewrite files_written_app || rewrite files_written_print).

(** The run of [main], by the outcome of its stages. *)
Lemma main_run env :
  ∃ out r,
    main env () = (out, (), r) ∧
    match pd_concat (fetched env) with
    | None =>
        r = inr () ∧ files_written out = [] ∧
        last out = Some (Print "❌ No USAspending dataframes were loaded. Cannot proceed with merge.")
    | Some df_usaspending =>
        let df_doge := fed env 500 in
        if empty df_doge then
          r = inr () ∧ files_written out = [] ∧
          last out = Some (Print "❌ Failed to load DOGE data. Cannot proceed with merge.")
        else
          match merge_outcome df_usaspending df_doge "award_id_piid" "piid" with
          | inl e => r = inl e ∧ files_written out = []
          | inr merged_df =>
              r = inr () ∧
              if empty merged_df then
                files_written out = [] ∧
                (empty df_usaspending = false →
                 last out = Some (Print "⚠️ Merge resulted in an empty DataFrame. Check merge keys and data."))
              else
                files_written out = ["merged_award_data_by_piid.csv"] ∧
                last out = Some (Print "✅ Saved merged data to 'merged_award_data_by_piid.csv'")
          end
    end.
Proof.
  unfold main.
  destruct (fetch_usaspending_data_run env
              "FY2025_All_Contracts_Full_20250506.zip" fetch_unbound)
    as (out1 & s1 & Hfetch & _ & Hfiles1).
  cbv [mbind M_bind call]. rewrite Hfetch.
  destruct (fetched env) as [|d dfs] eqn:Hfetched.
  { simpl. eexists _, _. split; [done|]. split; [done|].
    rewrite files_written_app, Hfiles1.
    split; [done|]. by rewrite last_snoc. }
  rewrite bool_decide_eq_false_2 by done.
  cbv [print emit or_raise pd_concat mret M_ret].
  set (df_usaspending := mkDataFrame _ _).
  destruct (fetch_doge_contracts_run env 500) as (out2 & -> & Hfiles2).
  destruct (empty (fed env 500)) eqn:Hdoge.
  { eexists _, _. split; [done|]. split; [done|]. split.
    - no_files.
      by rewrite Hfiles1, Hfiles2.
    - last_event. }
  destruct (merge_data_run df_usaspending (fed env 500) "award_id_piid" "piid")
    as (out3 & -> & Hfiles3 & _).
  destruct (merge_outcome _ _ _ _) as [e|merged_df].
  { eexists _, _. split; [done|]. split; [done|]. no_files.
    by rewrite Hfiles1, Hfiles2, Hfiles3. }
  destruct (empty merged_df) eqn:Hmerged.
  - destruct (empty df_usaspending) eqn:Hus; simpl.
    all: eexists _, _; split; [done|]; split; [done|]; split; [|try done].
    1,2: no_files.
    1,2: by rewrite Hfiles1, Hfiles2, Hfiles3.
    intros _. last_event.
  - simpl. eexists _, _. split; [done|]. split; [done|]. split.
    + no_files.
      by rewrite Hfiles1, Hfiles2, Hfiles3.
    + last_event.
Qed.

Lemma pd_concat_None (dfs : list (DataFrame scalar)) :
  pd_concat dfs = None ↔ dfs = [].
Proof. by destruct dfs. Qed.

(** C8. Terminal behaviour of [main]: the output file is written only
    when [merge_data] returns a frame that is not empty (DONE), and then
    it is written and the last line printed is the success line.  When
    the archive fetch yields no frame, when the feed frame is empty, or
    when the merge result is empty with both inputs non-empty, the run
    returns, no file is written and the last line printed is the
    diagnostic of that case.  When [pd.merge] raises, the exception
    leaves [main] and no file is written either. *)
Theorem main_terminal env :
  ∃ out r,
    main env () = (out, (), r) ∧
    (fetched env = [] →
     r = inr () ∧ files_written out = [] ∧
     last out = Some (Print "❌ No USAspending dataframes were loaded. Cannot proceed with merge.")) ∧
    (∀ df_usaspending, pd_concat (fetched env) = Some df_usaspending →
       let df_doge := fed env 500 in
       let outcome :=
         merge_outcome df_usaspending df_doge "award_id_piid" "piid" in
       (empty df_doge = true →
        r = inr () ∧ files_written out = [] ∧
        last out = Some (Print "❌ Failed to load DOGE data. Cannot proceed with merge.")) ∧
       (∀ merged_df, empty df_doge = false → outcome = inr merged_df →
          r = inr () ∧
          (empty df_usaspending = false → empty merged_df = true →
           files_written out = [] ∧
           last out = Some (Print "⚠️ Merge resulted in an empty DataFrame. Check merge keys and data.")) ∧
          (empty merged_df = true → files_written out = []) ∧
          (empty merged_df = false →
           files_written out = ["merged_award_data_by_piid.csv"] ∧
           last out = Some (Print "✅ Saved merged data to 'merged_award_data_by_piid.csv'"))) ∧
       (∀ e, empty df_doge = false → outcome = inl e →
          r = inl e ∧ files_written out = []) ∧
       (files_written out ≠ [] →
        r = inr () ∧ empty df_doge = false ∧
        ∃ merged_df, outcome = inr merged_df ∧ empty merged_df = false)).
Proof.
  destruct (main_run env) as (out & r & Hrun & Hcases).
  exists out, r. split; [done|]. split.
  { intros Hnone. apply pd_concat_None in Hnone. by rewrite Hnone in Hcases. }
  intros df_usaspending Hsome. rewrite Hsome in Hcases. simpl in *.
  destruct (empty (fed env 500)); [naive_solver|].
  destruct (merge_outcome df_usaspending (fed env 500) _ _) as [e|merged_df];
    [naive_solver|].
  destruct Hcases as [-> Hcases].
  destruct (empty merged_df) eqn:Hempty.
  - destruct Hcases as [Hfiles Hlast].
    split; [done|]. split; [|split]; [|done|by rewrite Hfiles].
    intros m _ [= <-]. rewrite Hempty. naive_solver.
  - destruct Hcases as [Hfiles Hlast].
    split; [done|]. split; [|split]; [|done|by eauto].
    intros m _ [= <-]. rewrite Hempty. naive_solver.
Qed.

End Orchestrator.

(** ** The theorems at the sample inputs *)

Lemma merge_data_outer_complete_witness :
  get_loc "award_id_piid" (columns Samples.awards) = Some 0 ∧
  get_loc "piid" (columns Samples.savings) = Some 0 ∧
  accepts Samples.awards Samples.savings "award_id_piid" "piid" 0 0 = true ∧
  ∃ out merged,
    merge_data Samples.awards Samples.savings "award_id_piid" "piid" ()
    = (out, (), inr merged) ∧
    let lkeys := left_keys Samples.awards Samples.savings 0 0 in
    let rkeys := right_keys Samples.awards Samples.savings 0 0 in
    let key := as_key Samples.awards Samples.savings 0 0 in
    let left_block := left_block BothKeys 0 0 Samples.awards Samples.savings in
    let right_block := right_block BothKeys 0 0 Samples.awards Samples.savings in
    (∀ i l, cells Samples.awards !! i = Some l →
       ∃ rp, left_block l ++ rp ∈ cells merged ∧
         (key (at_pos l 0) ∉ rkeys → rp = right_blank BothKeys Samples.savings) ∧
         (key (at_pos l 0) ∈ rkeys →
          ∃ r, r ∈ cells Samples.savings ∧ key (at_pos r 0) = key (at_pos l 0) ∧
               rp = right_block r)) ∧
    (∀ j r, cells Samples.savings !! j = Some r →
       ∃ lp, lp ++ right_block r ∈ cells merged ∧
         (key (at_pos r 0) ∉ lkeys →
          lp = left_blank BothKeys 0 0 Samples.awards Samples.savings (at_pos r 0)) ∧
         (key (at_pos r 0) ∈ lkeys →
          ∃ l, l ∈ cells Samples.awards ∧ key (at_pos l 0) = key (at_pos r 0) ∧
               lp = left_block l)) ∧
    ((∀ k, k ∈ rkeys → k ∈ lkeys) → ∀ l, left_block l = l) ∧
    ((∀ k, k ∈ lkeys → k ∈ rkeys) → ∀ r, right_block r = r).
Proof.
  split; [reflexivity|]. split; [reflexivity|]. split; [reflexivity|].
  exact (merge_data_outer_complete Samples.awards Samples.savings
           "award_id_piid" "piid" 0 0 eq_refl eq_refl eq_refl).
Defined.

(** C1 as stated fails where [pd.merge] refuses the key columns, numbers
    against strings: there is no merged output.  It also fails where a
    column of integers has to hold a missing value: the amount
    9007199254740993 is held as the float 9007199254740992, so no output
    row holds the award as it is. *)
Lemma merge_data_outer_complete_counterexample :
  ¬ (∃ out merged,
       merge_data Samples.numbered_awards Samples.lettered_savings
         "award_id_piid" "piid" ()
       = (out, (), inr merged) ∧
       (∀ l, l ∈ cells Samples.numbered_awards →
          ∃ o, o ∈ cells merged ∧ take 2 o = l) ∧
       (∀ r, r ∈ cells Samples.lettered_savings →
          ∃ o, o ∈ cells merged ∧ drop 2 o = r)) ∧
  ¬ (∃ out merged,
       merge_data Samples.large_award Samples.other_saving
         "award_id_piid" "piid" ()
       = (out, (), inr merged) ∧
       (∀ l, l ∈ cells Samples.large_award →
          ∃ o, o ∈ cells merged ∧ take 2 o = l) ∧
       (∀ r, r ∈ cells Samples.other_saving →
          ∃ o, o ∈ cells merged ∧ drop 2 o = r)).
Proof.
  split.
  - intros (out & merged & Hm & _). vm_compute in Hm. discriminate Hm.
  - intros (out & merged & Hm & Hl & _). vm_compute in Hm.
    injection Hm as _ <-.
    destruct (Hl [Some (Samples.Str "P1");
                  Some (Samples.Int 9007199254740993)]) as (o & Ho & Heq).
    { vm_compute. left. }
    vm_compute in Ho.
    apply elem_of_cons in Ho as [->|Ho]; [discriminate Heq|].
    apply list_elem_of_singleton in Ho as ->. discriminate Heq.
Qed.

Lemma merge_data_row_count_witness :
  get_loc "award_id_piid" (columns Samples.awards) = Some 0 ∧
  get_loc "piid" (columns Samples.savings) = Some 0 ∧
  accepts Samples.awards Samples.savings "award_id_piid" "piid" 0 0 = true ∧
  ∃ out merged,
    merge_data Samples.awards Samples.savings "award_id_piid" "piid" ()
    = (out, (), inr merged) ∧
    let lkeys := left_keys Samples.awards Samples.savings 0 0 in
    let rkeys := right_keys Samples.awards Samples.savings 0 0 in
    len Samples.awards `max` len Samples.savings ≤ len merged ∧
    (no_match lkeys rkeys →
     len merged = len Samples.awards + len Samples.savings) ∧
    (one_side_unique lkeys rkeys →
       len merged ≤ len Samples.awards + len Samples.savings ∧
       (len merged = len Samples.awards + len Samples.savings →
        no_match lkeys rkeys)).
Proof.
  split; [reflexivity|]. split; [reflexivity|]. split; [reflexivity|].
  exact (merge_data_row_count Samples.awards Samples.savings
           "award_id_piid" "piid" 0 0 eq_refl eq_refl eq_refl).
Defined.

(** C2 as stated fails where a key is repeated on both sides: three rows
    against three rows under one key give nine rows, more than six.  It
    also fails where [pd.merge] refuses the key columns: there is no
    output to count. *)
Lemma merge_data_row_count_counterexample :
  ¬ (∀ out merged,
       merge_data Samples.repeated_awards Samples.repeated_savings
         "award_id_piid" "piid" ()
       = (out, (), inr merged) →
       len Samples.repeated_awards `max` len Samples.repeated_savings
         ≤ len merged ∧
       len merged ≤ len Samples.repeated_awards + len Samples.repeated_savings ∧
       (len merged = len Samples.repeated_awards + len Samples.repeated_savings
        ↔ no_match (key_column 0 Samples.repeated_awards)
                   (key_column 0 Samples.repeated_savings))) ∧
  ¬ (∃ out merged,
       merge_data Samples.numbered_awards Samples.lettered_savings
         "award_id_piid" "piid" ()
       = (out, (), inr merged) ∧
       len Samples.numbered_awards `max` len Samples.lettered_savings
         ≤ len merged).
Proof.
  split.
  - intros Hclaim.
    destruct (Hclaim _ _ eq_refl) as (_ & Hle & _).
    vm_compute in Hle. lia.
  - intros (out & merged & Hm & _). vm_compute in Hm. discriminate Hm.
Qed.

Lemma merge_data_null_keys_witness :
  get_loc "award_id_piid" (columns Samples.unkeyed_award) = Some 0 ∧
  get_loc "piid" (columns Samples.savings) = Some 0 ∧
  accepts Samples.unkeyed_award Samples.savings "award_id_piid" "piid" 0 0 = true ∧
  ∃ out merged,
    merge_data Samples.unkeyed_award Samples.savings "award_id_piid" "piid" ()
    = (out, (), inr merged) ∧
    let lkeys := key_column 0 Samples.unkeyed_award in
    let rkeys := key_column 0 Samples.savings in
    let entries := indexers Samples.unkeyed_award Samples.savings 0 0 in
    let row := join_row BothKeys 0 0 Samples.unkeyed_award Samples.savings in
    cells merged ≡ₚ row <$> entries ∧
    (∀ i l, cells Samples.unkeyed_award !! i = Some l → at_pos l 0 = None →
       (∀ j, (Some i, Some j) ∈ entries ↔ rkeys !! j = Some None) ∧
       length (filter (λ e, e.1 = Some i) entries)
         = 1 `max` occurrences None rkeys ∧
       (None ∉ rkeys →
        filter (λ e, e.1 = Some i) entries = [(Some i, None)] ∧
        row (Some i, None)
        = left_block BothKeys 0 0 Samples.unkeyed_award Samples.savings l
          ++ right_blank BothKeys Samples.savings)) ∧
    (∀ j r, cells Samples.savings !! j = Some r → at_pos r 0 = None →
       (∀ i, (Some i, Some j) ∈ entries ↔ lkeys !! i = Some None) ∧
       length (filter (λ e, e.2 = Some j) entries)
         = 1 `max` occurrences None lkeys ∧
       (None ∉ lkeys →
        filter (λ e, e.2 = Some j) entries = [(None, Some j)] ∧
        row (None, Some j)
        = left_blank BothKeys 0 0 Samples.unkeyed_award Samples.savings None
          ++ right_block BothKeys 0 0 Samples.unkeyed_award Samples.savings r)).
Proof.
  split; [reflexivity|]. split; [reflexivity|]. split; [reflexivity|].
  exact (merge_data_null_keys Samples.unkeyed_award Samples.savings
           "award_id_piid" "piid" 0 0 eq_refl eq_refl eq_refl).
Defined.

(** C3 as stated fails where both frames have a row without a key: the
    two rows are paired, so the award without a key does not show with
    nulls in the place of the savings.  It also fails where [pd.merge]
    refuses the key columns: there is no output for a row to appear in. *)
Lemma merge_data_null_keys_counterexample :
  ¬ (∀ out merged,
       merge_data Samples.unkeyed_award Samples.unkeyed_saving
         "award_id_piid" "piid" ()
       = (out, (), inr merged) →
       ∀ l, l ∈ cells Samples.unkeyed_award → at_pos l 0 = None →
         ∃ o, o ∈ cells merged ∧ take 2 o = l ∧ drop 2 o = nulls 2) ∧
  ¬ (∃ out merged,
       merge_data Samples.numbered_awards Samples.lettered_savings
         "award_id_piid" "piid" ()
       = (out, (), inr merged) ∧
       ∀ l, l ∈ cells Samples.numbered_awards → at_pos l 0 = None →
         ∃ o, o ∈ cells merged ∧ take 2 o = l ∧ drop 2 o = nulls 2).
Proof.
  split.
  - intros Hclaim.
    destruct (Hclaim _ _ eq_refl [None; Some "100"]) as (o & Ho & _ & Hnull).
    { vm_compute. left. }
    { reflexivity. }
    vm_compute in Ho. apply list_elem_of_singleton in Ho as ->.
    discriminate Hnull.
  - intros (out & merged & Hm & _). vm_compute in Hm. discriminate Hm.
Qed.

Lemma merge_data_missing_key_witness :
  ("piid" ∉ columns Samples.awards ∨ "piid" ∉ columns Samples.savings) ∧
  merge_data Samples.awards Samples.savings "piid" "piid" ()
  = ([Print "'piid' not found in the first dataset (USAspending)."],
     (), inr empty_frame)
  ∧ len (@empty_frame string) = 0 ∧ columns (@empty_frame string) = [].
Proof.
  assert ("piid" ∉ columns Samples.awards ∨ "piid" ∉ columns Samples.savings)
    as Hmissing by (left; apply (bool_decide_unpack _); vm_compute; exact I).
  split; [exact Hmissing|].
  exact (merge_data_missing_key Samples.awards Samples.savings
           "piid" "piid" Hmissing).
Defined.


Lemma fetch_usaspending_data_csv_filter_witness :
  let response := mkResponse 200 "OK" download_url [] in
  requests_get Samples.network download_url = inr response ∧
  ¬ 400 ≤ status_code response < 600 ∧
  zipfile_ZipFile Samples.network (content response) = inr Samples.archive ∧
  ∃ out s dfs,
    fetch_usaspending_data Samples.network "archive.zip" fetch_unbound
    = (out, s, inr dfs) ∧
    dfs = omap (λ file, parsed (read_member Samples.network Samples.archive file))
               (filter (λ file, endswith file ".csv" = true)
                       (namelist Samples.archive)) ∧
    (∀ z', namelist z' = namelist Samples.archive →
           (∀ file, endswith file ".csv" = true →
                    zopen z' file = zopen Samples.archive file) →
           extracted Samples.network z' (namelist z') = dfs) ∧
    (Forall (λ file, endswith file ".csv" = false) (namelist Samples.archive) →
     dfs = [] ∧
     out = [Print ("Downloading " +:+ "archive.zip" +:+ " from USAspending...");
            Get download_url;
            Print ("No CSV file found in " +:+ "archive.zip")]).
Proof.
  assert (¬ 400 ≤ 200 < 600) as Hst by lia.
  split; [reflexivity|]. split; [exact Hst|]. split; [reflexivity|].
  exact (fetch_usaspending_data_csv_filter Samples.network "archive.zip"
           fetch_unbound (mkResponse 200 "OK" download_url [])
           Samples.archive eq_refl Hst eq_refl).
Defined.

(** The sample archive yields the one member that is named [*.csv] and
    parses. *)
Example fetch_sample_archive :
  (fetch_usaspending_data Samples.network "archive.zip" fetch_unbound).2
  = inr [Samples.awards].
Proof. reflexivity. Qed.

(** The end-to-end scenario: three rows, one matched and one unmatched on
    either side. *)
Example merge_sample_tables :
  merge_outcome Samples.awards Samples.savings "award_id_piid" "piid"
  = inr (mkDataFrame ["award_id_piid"; "amount"; "piid"; "savings"]
           [(0, [Some "P1"; Some "100"; Some "P1"; Some "50"]);
            (1, [Some "P2"; Some "200"; None; None]);
            (2, [None; None; Some "P3"; Some "10"])]).
Proof. reflexivity. Qed.

(** Both keys under one label: a single key column, holding the key of
    the row from whichever side has it; the rows are in the order of
    their keys, the row without a key last. *)
Example merge_same_label :
  merge_outcome Samples.relabelled_awards Samples.savings "piid" "piid"
  = inr (mkDataFrame ["piid"; "amount"; "savings"]
           [(0, [Some "P1"; Some "100"; Some "50"]);
            (1, [Some "P3"; None; Some "10"]);
            (2, [None; Some "200"; None])]).
Proof. reflexivity. Qed.

(** A left table without rows under the label of the right key: the key
    column stays in its place, and the rows are in the order of their
    keys. *)
Example merge_header_only :
  merge_outcome Samples.header_only Samples.unsorted_savings
    "award_id_piid" "award_id_piid"
  = inr (mkDataFrame ["award_id_piid"; "amount"; "savings"]
           [(0, [Some "P1"; None; Some "50"]);
            (1, [Some "P3"; None; Some "10"])]).
Proof. reflexivity. Qed.

(** Integers in a column that has to hold a missing value become floats. *)
Example merge_promotes :
  merge_outcome Samples.large_award Samples.other_saving "award_id_piid" "piid"
  = inr (mkDataFrame ["award_id_piid"; "amount"; "piid"; "savings"]
           [(0, [Some (Samples.Str "P1");
                 Some (Samples.Float 9007199254740992); None; None]);
            (1, [None; None; Some (Samples.Str "P3");
                 Some (Samples.Float 10)])]).
Proof. reflexivity. Qed.

(** Keys that are numbers on one side and strings on the other: the
    [ValueError] of [pd.merge] leaves [merge_data], and [main]. *)
Example merge_mixed_keys :
  merge_data Samples.numbered_awards Samples.lettered_savings
    "award_id_piid" "piid" ()
  = ([Print "Merging datasets on 'award_id_piid' (USAspending) and 'piid' (DOGE)..."],
     (),
     inl (OtherException "You are trying to merge on int64 and object columns for key 'award_id_piid'. If you wish to proceed you should use pd.concat")).
Proof. reflexivity. Qed.

(** A key label that two columns carry, and a suffix that makes a
    duplicate label: [pd.merge] raises. *)
Example merge_doubled_key :
  merge_outcome Samples.doubled_key Samples.savings "award_id_piid" "piid"
  = inl (OtherException "The column label 'award_id_piid' is not unique.").
Proof. reflexivity. Qed.

Example merge_suffix_clash :
  merge_outcome Samples.suffixed_awards Samples.amount_savings
    "award_id_piid" "piid"
  = inl (OtherException "Passing 'suffixes' which cause duplicate columns {'amount_x'} is not allowed.").
Proof. reflexivity. Qed.

(** Labels on both sides get their suffixes. *)
Example merge_suffixes :
  merge_outcome Samples.awards Samples.amount_savings "award_id_piid" "piid"
  = inr (mkDataFrame ["award_id_piid"; "amount_x"; "piid"; "amount_y"]
           [(0, [Some "P1"; Some "100"; Some "P1"; Some "50"]);
            (1, [Some "P2"; Some "200"; None; None])]).
Proof. reflexivity. Qed.

Example main_mixed_keys :
  (main Samples.network_mixed_keys ()).2
  = inl (OtherException "You are trying to merge on int64 and object columns for key 'award_id_piid'. If you wish to proceed you should use pd.concat")
  ∧ files_written (main Samples.network_mixed_keys ()).1.1 = [].
Proof. split; reflexivity. Qed.

(** Rows without a key on both sides are joined to each other. *)
Example merge_unkeyed :
  merge_outcome Samples.unkeyed_award Samples.unkeyed_saving
    "award_id_piid" "piid"
  = inr (mkDataFrame ["award_id_piid"; "amount"; "piid"; "savings"]
           [(0, [None; Some "100"; None; Some "50"])]).
Proof. reflexivity. Qed.

(** The sample run ends with the file written. *)
Example main_sample_run :
  files_written (main Samples.network ()).1.1
  = ["merged_award_data_by_piid.csv"].
Proof. vm_compute. reflexivity. Qed.

(** Without a member named [*.csv] the fetch returns no frame and says so. *)
Example fetch_archive_without_csv :
  fetch_usaspending_data Samples.network_without_csv "archive.zip" fetch_unbound
  = ([Print "Downloading archive.zip from USAspending...";
      Get download_url;
      Print "No CSV file found in archive.zip"],
     mkFetchLocals [] false, inr []).
Proof. reflexivity. Qed.

(** A body that is not an archive, and a failed download. *)
Example fetch_bad_zip :
  fetch_usaspending_data Samples.network_bad_zip "archive.zip" fetch_unbound
  = ([Print "Downloading archive.zip from USAspending...";
      Get download_url;
      Print "Failed to open zip file: archive.zip. It might be corrupted or not a zip file."],
     mkFetchLocals [] false, inr []).
Proof. reflexivity. Qed.

Example fetch_network_down :
  fetch_usaspending_data Samples.network_down "archive.zip" fetch_unbound
  = ([Print "Downloading archive.zip from USAspending...";
      Get download_url;
      Print "Failed to download archive.zip: Connection refused"],
     mkFetchLocals [] false, inr []).
Proof. reflexivity. Qed.

(** With the network down the run stops at the first check and writes no
    file. *)
Example main_network_down :
  main Samples.network_down ()
  = ([Print "Downloading FY2025_All_Contracts_Full_20250506.zip from USAspending...";
      Get download_url;
      Print "Failed to download FY2025_All_Contracts_Full_20250506.zip: Connection refused";
      Print "❌ No USAspending dataframes were loaded. Cannot proceed with merge."],
     (), inr ()).
Proof. reflexivity. Qed.

(** * Further properties *)

(** ** The Merger: what the output holds *)

Section MergerOutput.
Context {scalar : Type} `{!EqDecision scalar} `{!Dtypes scalar}.
Implicit Types (left right merged : DataFrame scalar) (key : cell scalar).
Implicit Types (l r o : list (cell scalar)).

Lemma length_join_columns lay kr (lcols rcols : list string) :
  kr < length rcols →
  length (join_columns lay kr lcols rcols)
  = length lcols
    + match lay with SharedKey => length rcols - 1 | BothKeys => length rcols end.
Proof.
  intros Hkr. unfold join_columns, left_labels, right_labels, kept.
  rewrite length_app, !length_fmap.
  destruct lay; simpl; rewrite ?length_delete; try done.
  apply lookup_lt_is_Some; lia.
Qed.

Lemma length_left_block lay kl kr left right l :
  length (left_block lay kl kr left right l) = length l.
Proof.
  unfold left_block.
  destruct lay, (lacks_left _);
    by rewrite ?length_insert, ?length_stored.
Qed.

Lemma length_right_block lay kl kr left right r :
  kr < length r →
  length (right_block lay kl kr left right r)
  = match lay with SharedKey => length r - 1 | BothKeys => length r end.
Proof.
  intros Hkr. unfold right_block. destruct lay; [apply length_stored|].
  rewrite length_delete, length_stored; [done|].
  apply lookup_lt_is_Some. by rewrite length_stored.
Qed.

Lemma length_left_blank lay kl kr left right key :
  length (left_blank lay kl kr left right key) = length (columns left).
Proof.
  unfold left_blank. destruct lay; by rewrite ?length_insert, length_nulls.
Qed.

Lemma length_right_blank lay right :
  length (right_blank lay right)
  = match lay with
    | SharedKey => length (columns right) - 1
    | BothKeys => length (columns right)
    end.
Proof. unfold right_blank. destruct lay; apply length_nulls. Qed.

Lemma length_join_row left right lay kl kr e :
  rectangular left → rectangular right → kr < length (columns right) →
  e ∈ indexers left right kl kr →
  length (join_row lay kl kr left right e)
  = length (join_columns lay kr (columns left) (columns right)).
Proof.
  intros Hrl Hrr Hkr He. rewrite length_join_columns by done.
  pose proof He as He'.
  apply entry_rows in He'
    as [(i & j & l & r & -> & Hl & Hr & _)|[(i & l & -> & Hl & _)
                                           |(j & r & -> & Hr & _)]].
  - rewrite (join_row_paired _ _ _ _ _ _ _ l r) by done.
    pose proof (rectangular_lookup _ _ _ Hrl Hl) as Hlenl.
    pose proof (rectangular_lookup _ _ _ Hrr Hr) as Hlenr.
    rewrite length_app, length_left_block, length_right_block by lia.
    by rewrite Hlenl, Hlenr.
  - rewrite (join_row_left_only _ _ _ _ _ _ l) by done.
    pose proof (rectangular_lookup _ _ _ Hrl Hl) as Hlenl.
    by rewrite length_app, length_left_block, length_right_blank, Hlenl.
  - rewrite (join_row_right_only _ _ _ _ _ _ r) by done.
    pose proof (rectangular_lookup _ _ _ Hrr Hr) as Hlenr.
    rewrite length_app, length_left_blank, length_right_block by lia.
    by rewrite Hlenr.
Qed.

(** X2. The merged frame is well formed: every row has one cell per
    column, the columns are those of both frames (one less when the two
    keys share a label), and the rows are numbered 0..N-1. *)
Theorem merge_data_well_formed left right left_on right_on kl kr :
  rectangular left → rectangular right →
  get_loc left_on (columns left) = Some kl →
  get_loc right_on (columns right) = Some kr →
  accepts left right left_on right_on kl kr = true →
  ∃ out merged,
    merge_data left right left_on right_on () = (out, (), inr merged) ∧
    rectangular merged ∧
    length (columns merged)
    = (if decide (left_on = right_on)
       then length (columns left) + length (columns right) - 1
       else length (columns left) + length (columns right)) ∧
    index merged = seq 0 (len merged).
Proof.
  intros Hrl Hrr Hkl Hkr Hok.
  destruct (merge_data_joined left right left_on right_on kl kr)
    as [out Hm]; [done..|].
  eexists out, _. split; [done|].
  pose proof (get_loc_lt _ _ _ Hkr) as Hkr'.
  split; [|split].
  - unfold rectangular. rewrite cells_outer_join. simpl.
    apply Forall_fmap, Forall_forall. intros e He. simpl.
    by apply length_join_row.
  - simpl. rewrite length_join_columns by done.
    unfold layout_of. case_decide; simpl; lia.
  - unfold index, len. simpl. rewrite index_range_index.
    unfold range_index. by rewrite length_imap.
Qed.

(** X1. The merged frame holds nothing but the join: every output row is
    a left row and a right row with equal keys, or a left row whose key no
    right row has, followed by nulls in the place of the right frame, or
    a right row whose key no left row has, after nulls in the place of
    the left frame.  Rows with different keys are never paired. *)
Theorem merge_data_sound left right left_on right_on kl kr :
  get_loc left_on (columns left) = Some kl →
  get_loc right_on (columns right) = Some kr →
  accepts left right left_on right_on kl kr = true →
  ∃ out merged,
    merge_data left right left_on right_on () = (out, (), inr merged) ∧
    let lay := layout_of left_on right_on in
    let key := as_key left right kl kr in
    ∀ o, o ∈ cells merged →
      (∃ l r, l ∈ cells left ∧ r ∈ cells right ∧
              key (at_pos l kl) = key (at_pos r kr) ∧
              o = left_block lay kl kr left right l
                  ++ right_block lay kl kr left right r) ∨
      (∃ l, l ∈ cells left ∧
            (key (at_pos l kl) ∉ right_keys left right kl kr) ∧
            o = left_block lay kl kr left right l ++ right_blank lay right) ∨
      (∃ r, r ∈ cells right ∧
            (key (at_pos r kr) ∉ left_keys left right kl kr) ∧
            o = left_blank lay kl kr left right (at_pos r kr)
                ++ right_block lay kl kr left right r).
Proof.
  intros Hkl Hkr Hok.
  destruct (merge_data_joined left right left_on right_on kl kr)
    as [out Hm]; [done..|].
  eexists out, _. split; [done|]. simpl. rewrite cells_outer_join.
  pose proof (get_loc_lt _ _ _ Hkr) as Hkr'.
  intros o (e & -> & He)%list_elem_of_fmap.
  pose proof He as He'.
  apply entry_rows in He'
    as [(i & j & l & r & -> & Hl & Hr & Hkey)|[(i & l & -> & Hl & Hno)
                                              |(j & r & -> & Hr & Hno)]].
  - left. exists l, r.
    split; [by eapply list_elem_of_lookup_2|].
    split; [by eapply list_elem_of_lookup_2|]. split; [done|].
    by apply join_row_paired.
  - right; left. exists l.
    split; [by eapply list_elem_of_lookup_2|]. split; [done|].
    by apply join_row_left_only.
  - right; right. exists r.
    split; [by eapply list_elem_of_lookup_2|]. split; [done|].
    by apply join_row_right_only.
Qed.

Lemma columns_outer_join_nonempty left right lay kl kr :
  kl < length (columns left) → kr < length (columns right) →
  columns (outer_join left right lay kl kr) ≠ [].
Proof.
  intros Hkl Hkr Hnil. apply (f_equal length) in Hnil. simpl in Hnil.
  rewrite length_join_columns in Hnil by done.
  destruct lay; simpl in Hnil; lia.
Qed.

Lemma empty_outer_join left right lay kl kr :
  kl < length (columns left) → kr < length (columns right) →
  empty (outer_join left right lay kl kr) = true
  ↔ len left = 0 ∧ len right = 0.
Proof.
  intros Hkl Hkr.
  set (merged := outer_join _ _ _ _ _).
  pose proof (columns_outer_join_nonempty left right lay kl kr Hkl Hkr)
    as Hcols.
  pose proof (full_outer_join_count (left_keys left right kl kr)
                (right_keys left right kl kr)) as (Hmax & Hnone & _).
  simpl in Hmax, Hnone.
  rewrite length_left_keys, length_right_keys in Hmax, Hnone.
  fold (indexers left right kl kr) in Hmax, Hnone.
  rewrite <-(len_outer_join left right lay) in Hmax, Hnone.
  fold merged in Hcols, Hmax, Hnone.
  unfold empty. rewrite orb_true_iff, !bool_decide_eq_true.
  assert (rows merged = [] ↔ len merged = 0) as ->.
  { unfold len. by destruct (rows merged). }
  split.
  - intros [Hlen|?]; [lia|done].
  - intros [Hl Hr]. left. rewrite Hnone; [lia|]. intros k Hk.
    assert (left_keys left right kl kr = []) as Hnil.
    { apply length_zero_iff_nil. by rewrite length_left_keys. }
    rewrite Hnil in Hk. by apply elem_of_nil in Hk.
Qed.

Lemma merge_outcome_empty_iff left right left_on right_on merged :
  merge_outcome left right left_on right_on = inr merged →
  empty merged = true ↔
  left_on ∉ columns left ∨ right_on ∉ columns right ∨
  (len left = 0 ∧ len right = 0).
Proof.
  intros Hout.
  destruct (merge_outcome_cases left right left_on right_on)
    as [[Hmissing Heq]|(kl & kr & Hkl & Hkr & Hcase)].
  { rewrite Heq in Hout. simplify_eq. simpl. split; [tauto|done]. }
  destruct (accepts _ _ _ _ _ _); [|destruct Hcase as [e He]; congruence].
  rewrite Hcase in Hout. simplify_eq.
  rewrite empty_outer_join by eauto using get_loc_lt.
  assert (left_on ∈ columns left) by (apply get_loc_elem_of; by rewrite Hkl).
  assert (right_on ∈ columns right) by (apply get_loc_elem_of; by rewrite Hkr).
  tauto.
Qed.

Lemma merge_outcome_raises_iff left right left_on right_on :
  (∃ e, merge_outcome left right left_on right_on = inl e) ↔
  ∃ kl kr, get_loc left_on (columns left) = Some kl ∧
           get_loc right_on (columns right) = Some kr ∧
           accepts left right left_on right_on kl kr = false.
Proof.
  destruct (merge_outcome_cases left right left_on right_on)
    as [[Hmissing Heq]|(kl & kr & Hkl & Hkr & Hcase)].
  { rewrite Heq. split; [by intros [? ?]|].
    intros (kl & kr & Hkl & Hkr & _).
    assert (left_on ∈ columns left) by (apply get_loc_elem_of; by rewrite Hkl).
    assert (right_on ∈ columns right) by (apply get_loc_elem_of; by rewrite Hkr).
    tauto. }
  destruct (accepts _ _ _ _ _ _) eqn:Hok.
  - rewrite Hcase. split; [by intros [? ?]|].
    intros (kl' & kr' & Hkl' & Hkr' & Hno). congruence.
  - split; [eauto 6|done].
Qed.

(** X3. What [merge_data] gives: it raises exactly when both keys are
    columns of their frames and [pd.merge] does not accept the frames;
    otherwise it returns a frame, which is empty exactly when a key is
    not a column of its frame, or neither input has a row. *)
Theorem merge_data_empty_iff left right left_on right_on :
  ∃ out result,
    merge_data left right left_on right_on () = (out, (), result) ∧
    ((∃ e, result = inl e) ↔
     ∃ kl kr, get_loc left_on (columns left) = Some kl ∧
              get_loc right_on (columns right) = Some kr ∧
              accepts left right left_on right_on kl kr = false) ∧
    (∀ merged, result = inr merged →
       (empty merged = true ↔
        left_on ∉ columns left ∨ right_on ∉ columns right ∨
        (len left = 0 ∧ len right = 0))).
Proof.
  destruct (merge_data_run left right left_on right_on) as (out & Hrun & _).
  eexists out, _. split; [done|]. split.
  - apply merge_outcome_raises_iff.
  - intros merged. apply merge_outcome_empty_iff.
Qed.

(** X19. With both keys among the columns and frames that [pd.merge]
    does not accept (a key label carried by more than one column, key
    columns of incompatible dtypes, suffixes that make duplicates),
    [merge_data] prints its first line and the exception of [pd.merge]
    leaves it: nothing catches it. *)
Theorem merge_data_refused left right left_on right_on kl kr :
  get_loc left_on (columns left) = Some kl →
  get_loc right_on (columns right) = Some kr →
  accepts left right left_on right_on kl kr = false →
  ∃ e,
    merge_data left right left_on right_on ()
    = ([Print ("Merging datasets on '" +:+ left_on +:+ "' (USAspending) and '"
               +:+ right_on +:+ "' (DOGE)...")], (), inl e).
Proof.
  intros Hkl Hkr Hok. unfold merge_data.
  rewrite !decide_False.
  2:{ intros Hn. apply Hn, get_loc_elem_of. by rewrite Hkr. }
  2:{ intros Hn. apply Hn, get_loc_elem_of. by rewrite Hkl. }
  pose proof (pd_merge_cases left right left_on right_on kl kr Hkl Hkr)
    as Hcase.
  rewrite Hok in Hcase. destruct Hcase as [e ->]. by exists e.
Qed.

(** X4. Labels of the merged frame: when the two frames share no column
    label, the merged frame has the columns of the left frame followed by
    those of the right frame, under their own labels. *)
Theorem merge_data_columns_disjoint left right left_on right_on kl kr :
  get_loc left_on (columns left) = Some kl →
  get_loc right_on (columns right) = Some kr →
  accepts left right left_on right_on kl kr = true →
  (∀ c, c ∈ columns left → c ∉ columns right) →
  ∃ out merged,
    merge_data left right left_on right_on () = (out, (), inr merged) ∧
    columns merged = columns left ++ columns right.
Proof.
  intros Hkl Hkr Hok Hdisjoint.
  destruct (merge_data_joined left right left_on right_on kl kr)
    as [out Hm]; [done..|].
  eexists out, _. split; [done|]. simpl.
  assert (layout_of left_on right_on = BothKeys) as ->.
  { unfold layout_of. rewrite decide_False; [done|]. intros ->.
    apply (Hdisjoint right_on).
    - apply get_loc_elem_of. by rewrite Hkl.
    - apply get_loc_elem_of. by rewrite Hkr. }
  unfold join_columns, left_labels, right_labels, kept. f_equal.
  - rewrite <-(list_fmap_id (columns left)) at 2.
    apply list_fmap_ext. intros i c Hc%list_elem_of_lookup_2.
    unfold with_suffix. rewrite decide_False; [done|]. by apply Hdisjoint.
  - rewrite <-(list_fmap_id (columns right)) at 2.
    apply list_fmap_ext. intros i c Hc%list_elem_of_lookup_2.
    unfold with_suffix. rewrite decide_False; [done|].
    intros Hc'. by apply (Hdisjoint c).
Qed.

Lemma join_imap_singleton {A B} (f : nat → A → list B) (g : nat → B)
    (l : list A) :
  (∀ i x, f i x = [g i]) → mjoin (imap f l) = g <$> seq 0 (length l).
Proof.
  intros Hf. rewrite <-imap_seq_0. revert f g Hf.
  induction l as [|x l IH]; intros f g Hf; simpl; [done|].
  rewrite Hf. simpl. f_equal. apply (IH (f ∘ S) (g ∘ S)).
  intros i y. apply Hf.
Qed.

Lemma by_rows_nil_l (rkeys : list (cell scalar)) :
  by_rows [] rkeys = (λ j, (None, Some j)) <$> seq 0 (length rkeys).
Proof.
  unfold by_rows. simpl. apply join_imap_singleton.
  intros j k. unfold right_entries. rewrite decide_False; [done|].
  apply not_elem_of_nil.
Qed.

Lemma by_rows_nil_r (lkeys : list (cell scalar)) :
  by_rows lkeys [] = (λ i, (Some i, None)) <$> seq 0 (length lkeys).
Proof.
  unfold by_rows. simpl. rewrite app_nil_r.
  by apply join_imap_singleton.
Qed.

Lemma left_keys_nil left right kl kr :
  len left = 0 → left_keys left right kl kr = [].
Proof. intros Hlen. apply length_zero_iff_nil. by rewrite length_left_keys. Qed.

Lemma right_keys_nil left right kl kr :
  len right = 0 → right_keys left right kl kr = [].
Proof. intros Hlen. apply length_zero_iff_nil. by rewrite length_right_keys. Qed.

Lemma fmap_seq_lookup {A B} (f : nat → B) (g : A → B) (l : list A) :
  (∀ i x, l !! i = Some x → f i = g x) →
  f <$> seq 0 (length l) = g <$> l.
Proof.
  intros Hfg. apply list_eq. intros i. rewrite !list_lookup_fmap.
  destruct (l !! i) as [x|] eqn:Hx; simpl.
  - rewrite (proj2 (lookup_seq 0 _ i i)); simpl.
    2:{ split; [done|]. by eapply lookup_lt_Some. }
    f_equal. by apply Hfg.
  - rewrite lookup_ge_None_2; [done|].
    rewrite length_seq. by apply lookup_ge_None.
Qed.

(** X5. An input without rows: when the left frame has no row, the merged
    frame has the rows of the right frame, each after nulls in the place
    of the left frame; when the right frame has no row, it has the rows
    of the left frame, each followed by nulls in the place of the right
    frame.  No cell is promoted; the rows come sorted by key. *)
Theorem merge_data_one_side_empty left right left_on right_on kl kr :
  get_loc left_on (columns left) = Some kl →
  get_loc right_on (columns right) = Some kr →
  accepts left right left_on right_on kl kr = true →
  ∃ out merged,
    merge_data left right left_on right_on () = (out, (), inr merged) ∧
    let lay := layout_of left_on right_on in
    (len left = 0 →
     cells merged
     ≡ₚ (λ r, left_blank lay kl kr left right (at_pos r kr)
              ++ match lay with BothKeys => r | SharedKey => delete kr r end)
        <$> cells right) ∧
    (len right = 0 →
     cells merged ≡ₚ (λ l, l ++ right_blank lay right) <$> cells left).
Proof.
  intros Hkl Hkr Hok.
  destruct (merge_data_joined left right left_on right_on kl kr)
    as [out Hm]; [done..|].
  eexists out, _. split; [done|]. simpl. rewrite cells_outer_join.
  pose proof (get_loc_lt _ _ _ Hkr) as Hkr'.
  set (lay := layout_of left_on right_on). clearbody lay.
  split.
  - intros Hlen. pose proof (left_keys_nil left right kl kr Hlen) as Hnil.
    unfold indexers. rewrite full_outer_join_by_rows, Hnil, by_rows_nil_l.
    rewrite <-list_fmap_compose, length_right_keys. unfold len.
    rewrite <-(length_fmap snd (rows right)). fold (cells right).
    erewrite fmap_seq_lookup; [done|]. intros j r Hr. simpl.
    rewrite (join_row_right_only _ _ _ _ _ _ r); [|by apply entry_rows; right; right; exists j, r; rewrite Hnil; split; [|split]; [done..|apply not_elem_of_nil]|done].
    f_equal. apply right_block_id. rewrite Hnil. by intros k ?%elem_of_nil.
  - intros Hlen. pose proof (right_keys_nil left right kl kr Hlen) as Hnil.
    unfold indexers. rewrite full_outer_join_by_rows, Hnil, by_rows_nil_r.
    rewrite <-list_fmap_compose, length_left_keys. unfold len.
    rewrite <-(length_fmap snd (rows left)). fold (cells left).
    erewrite fmap_seq_lookup; [done|]. intros i l Hl. simpl.
    rewrite (join_row_left_only _ _ _ _ _ _ l) by done.
    f_equal. apply left_block_id. rewrite Hnil. by intros k ?%elem_of_nil.
Qed.

End MergerOutput.

(** ** The Archive Fetcher: what it prints and how much it returns *)

Section ArchiveLog.
Context {scalar : Type} `{!EqDecision scalar} {json : Type}.
Implicit Types (env : @Env scalar json) (z : ZipFile) (s : @fetch_locals scalar).

Lemma for_each_extract_log env z names s :
  for_each names (extract_member env z) s
  = (names ≫= member_lines env z,
     mkFetchLocals (dataframes s ++ extracted env z names)
       (csv_files_found s || existsb (λ file, endswith file ".csv") names),
     inr ()).
Proof.
  revert s. induction names as [|file names IH]; intros s.
  { destruct s as [dfs found]. simpl. by rewrite app_nil_r, orb_false_r. }
  simpl. unfold mbind, M_bind at 1. rewrite extract_member_run.
  rewrite extracted_cons. unfold member_lines at 1.
  destruct (endswith file ".csv") eqn:Hcsv; simpl.
  - destruct (read_member env z file) as [e|df]; simpl; rewrite IH; simpl.
    + by rewrite orb_true_r.
    + by rewrite <-app_assoc, orb_true_r.
  - rewrite IH. by destruct s.
Qed.

Lemma fetch_usaspending_data_opened env file_name s0 response z :
  requests_get env download_url = inr response →
  ¬ 400 ≤ status_code response < 600 →
  zipfile_ZipFile env (content response) = inr z →
  ∃ s,
    fetch_usaspending_data env file_name s0
    = ([Print ("Downloading " +:+ file_name +:+ " from USAspending...");
        Get download_url]
       ++ (namelist z ≫= member_lines env z)
       ++ (if existsb (λ file, endswith file ".csv") (namelist z) then []
           else [Print ("No CSV file found in " +:+ file_name)]),
       s, inr (extracted env z (namelist z))).
Proof.
  intros Hget Hst Hzip.
  unfold fetch_usaspending_data, get.
  cbv [mbind M_bind modify print emit try_except lift mret M_ret gets].
  simpl. rewrite Hget. simpl.
  destruct (raise_for_status_run (scalar:=scalar) response
              (set_dataframes [] s0))
    as [(e & _ & ?)|[-> _]]; [done|]. simpl. rewrite Hzip. simpl.
  rewrite for_each_extract_log. simpl.
  destruct (existsb _ _); simpl; eexists; by rewrite ?app_nil_r.
Qed.

(** X6. The console log of a fetch whose archive opens: the download line
    and the request, then for every member named [*.csv], in archive
    order, one line [Extracting and reading <file>], followed by one
    line [Error reading CSV file <file>: ...] when it does not parse;
    then [No CSV file found in <name>] when no member is named [*.csv]. *)
Theorem fetch_usaspending_data_log env file_name s0 response z :
  requests_get env download_url = inr response →
  ¬ 400 ≤ status_code response < 600 →
  zipfile_ZipFile env (content response) = inr z →
  ∃ s,
    fetch_usaspending_data env file_name s0
    = ([Print ("Downloading " +:+ file_name +:+ " from USAspending...");
        Get download_url]
       ++ (namelist z ≫= λ file,
             if endswith file ".csv" then
               Print ("Extracting and reading " +:+ file)
               :: match read_member env z file with
                  | inl read_error =>
                      [Print ("Error reading CSV file " +:+ file +:+ ": "
                              +:+ exn_str read_error)]
                  | inr _ => []
                  end
             else [])
       ++ (if existsb (λ file, endswith file ".csv") (namelist z) then []
           else [Print ("No CSV file found in " +:+ file_name)]),
       s, inr (extracted env z (namelist z))).
Proof. apply fetch_usaspending_data_opened. Qed.

Lemma existsb_endswith_iff (names : list string) :
  existsb (λ file, endswith file ".csv") names = false ↔
  Forall (λ file, endswith file ".csv" = false) names.
Proof.
  induction names as [|file names IH]; simpl.
  - split; [constructor|done].
  - rewrite orb_false_iff, IH, Forall_cons. done.
Qed.

Lemma member_lines_not_no_csv env z (names : list string) (file_name : string) :
  Print ("No CSV file found in " +:+ file_name)
  ∉ names ≫= member_lines env z.
Proof.
  intros (file & Hline & _)%list_elem_of_bind. unfold member_lines in Hline.
  destruct (endswith file ".csv"); [|by apply elem_of_nil in Hline].
  apply elem_of_cons in Hline as [Hline|Hline]; [done|].
  destruct (read_member env z file); [|by apply elem_of_nil in Hline].
  by apply list_elem_of_singleton in Hline.
Qed.

(** X7. The line [No CSV file found in <name>] is printed exactly when no
    member of the archive is named [*.csv].  An archive whose members
    named [*.csv] all fail to parse gives the empty list without that
    line. *)
Theorem fetch_usaspending_data_no_csv_line env file_name s0 response z :
  requests_get env download_url = inr response →
  ¬ 400 ≤ status_code response < 600 →
  zipfile_ZipFile env (content response) = inr z →
  ∃ out s dfs,
    fetch_usaspending_data env file_name s0 = (out, s, inr dfs) ∧
    (Print ("No CSV file found in " +:+ file_name) ∈ out ↔
     Forall (λ file, endswith file ".csv" = false) (namelist z)) ∧
    (Forall (λ file, endswith file ".csv" = true →
                     ∃ e, read_member env z file = inl e) (namelist z) →
     dfs = []).
Proof.
  intros Hget Hst Hzip.
  destruct (fetch_usaspending_data_opened env file_name s0 response z)
    as [s Hrun]; [done..|].
  eexists _, s, _. split; [exact Hrun|]. split.
  - rewrite <-existsb_endswith_iff, !elem_of_app.
    destruct (existsb _ (namelist z)); split; try done.
    + intros [Hin|[Hin|Hin]].
      * apply elem_of_cons in Hin as [?|Hin]; [done|].
        by apply list_elem_of_singleton in Hin.
      * by apply member_lines_not_no_csv in Hin.
      * by apply elem_of_nil in Hin.
    + intros _. right; right. by left.
  - intros Hfail. unfold extracted. clear Hrun.
    induction (namelist z) as [|file names IH]; [done|].
    apply Forall_cons in Hfail as [Hfile Hfail].
    rewrite filter_cons. case_decide as Hcsv; simpl; [|by apply IH].
    destruct (Hfile Hcsv) as [e ->]. simpl. by apply IH.
Qed.

Lemma length_omap_le {A B} (f : A → option B) (l : list A) :
  length (omap f l) ≤ length l.
Proof.
  induction l as [|x l IH]; csimpl; [done|]. destruct (f x); simpl; lia.
Qed.

Lemma length_omap_eq {A B} (f : A → option B) (l : list A) :
  length (omap f l) = length l ↔ Forall (λ x, is_Some (f x)) l.
Proof.
  induction l as [|x l IH]; csimpl.
  - split; [constructor|done].
  - rewrite Forall_cons. pose proof (length_omap_le f l).
    destruct (f x) as [y|]; simpl.
    + rewrite <-IH. split; [intros; split; [by eexists|lia]|intros [_ ?]; lia].
    + split; [lia|]. by intros [[]%is_Some_None _].
Qed.

(** X8. The fetch returns at most one frame per member named [*.csv], and
    exactly one for each when every such member parses. *)
Theorem fetch_usaspending_data_count env file_name s0 response z :
  requests_get env download_url = inr response →
  ¬ 400 ≤ status_code response < 600 →
  zipfile_ZipFile env (content response) = inr z →
  ∃ out s dfs,
    fetch_usaspending_data env file_name s0 = (out, s, inr dfs) ∧
    let csv := filter (λ file, endswith file ".csv" = true) (namelist z) in
    length dfs ≤ length csv ∧
    (length dfs = length csv ↔
     Forall (λ file, ∃ df, read_member env z file = inr df) csv).
Proof.
  intros Hget Hst Hzip.
  destruct (fetch_usaspending_data_opened env file_name s0 response z)
    as [s Hrun]; [done..|].
  eexists _, s, _. split; [exact Hrun|]. simpl. unfold extracted.
  split; [apply length_omap_le|]. rewrite length_omap_eq.
  apply Forall_iff. intros file. unfold parsed.
  destruct (read_member env z file) as [e|df].
  - split; [by intros []%is_Some_None|by intros [? ?]].
  - split; [eauto|by eexists].
Qed.

End ArchiveLog.

(** ** The Feed Fetcher: the request and the success path *)

Section FeedRequests.
Context {scalar : Type} `{!EqDecision scalar} {json : Type}.
Implicit Types (env : @Env scalar json).

Lemma fetch_doge_contracts_requests env per_page :
  ∃ out,
    fetch_doge_contracts env per_page () = (out, (), inr (fed env per_page)) ∧
    requests out = [feed_address per_page].
Proof.
  unfold fetch_doge_contracts, fed, get. fold (feed_address per_page).
  cbv [mbind M_bind modify print emit try_except lift mret M_ret gets].
  simpl.
  destruct (requests_get env (feed_address per_page)) as [e|response]; simpl.
  { destruct e; simpl; eauto. }
  destruct (raise_for_status_run (scalar:=scalar) response ())
    as [(e & -> & Hst)|[-> Hst]]; simpl.
  { rewrite bool_decide_eq_true_2 by done. eauto. }
  rewrite bool_decide_eq_false_2 by done.
  destruct (json_loads env (content response)) as [e|data]; simpl.
  { destruct e; simpl; eauto. }
  destruct (pd_DataFrame env data) as [e|df]; simpl.
  { destruct e; simpl; eauto. }
  eauto.
Qed.

(** X9. The success path of the Feed Fetcher: when the request succeeds
    with a status outside 400..599, the body decodes and the frame is
    built, the fetch returns that frame and prints its row count. *)
Theorem fetch_doge_contracts_success env per_page response data df :
  requests_get env (feed_address per_page) = inr response →
  ¬ 400 ≤ status_code response < 600 →
  json_loads env (content response) = inr data →
  pd_DataFrame env data = inr df →
  fetch_doge_contracts env per_page ()
  = ([Print ("Fetching DOGE contracts from " +:+ feed_address per_page
             +:+ " (per_page=" +:+ pretty per_page +:+ ")...");
      Get (feed_address per_page);
      Print ("Retrieved " +:+ pretty (len df) +:+ " contracts from DOGE API.")],
     (), inr df).
Proof.
  intros Hget Hst Hjson Hdf.
  unfold fetch_doge_contracts, get. fold (feed_address per_page).
  cbv [mbind M_bind modify print emit try_except lift mret M_ret gets].
  simpl. rewrite Hget. simpl.
  destruct (raise_for_status_run (scalar:=scalar) response ())
    as [(e & _ & ?)|[-> _]]; [done|]. simpl.
  rewrite Hjson. simpl. by rewrite Hdf.
Qed.

(** X10. One request, one page: whatever happens, the Feed Fetcher makes
    exactly one request, to the address carrying the page size, and
    returns either the empty frame or the frame built from the decoded
    body of that response. *)
Theorem fetch_doge_contracts_one_request env per_page :
  ∃ out df,
    fetch_doge_contracts env per_page () = (out, (), inr df) ∧
    requests out
    = ["https://api.doge.gov/savings/contracts?per_page=" +:+ pretty per_page] ∧
    (df = empty_frame ∨
     ∃ response data,
       requests_get env (feed_address per_page) = inr response ∧
       ¬ 400 ≤ status_code response < 600 ∧
       json_loads env (content response) = inr data ∧
       pd_DataFrame env data = inr df).
Proof.
  destruct (fetch_doge_contracts_requests env per_page) as (out & Hrun & Hreq).
  exists out, (fed env per_page). split; [done|]. split; [done|].
  unfold fed.
  destruct (requests_get env (feed_address per_page)) as [e|response];
    [by left|].
  case_bool_decide as Hst; [by left|].
  destruct (json_loads env (content response)) as [e|data] eqn:Hjson;
    [by left|].
  destruct (pd_DataFrame env data) as [e|df] eqn:Hdf; [by left|].
  right. by exists response, data.
Qed.

End FeedRequests.

(** ** The Orchestrator: requests made and when the file is written *)

Section OrchestratorRuns.
Context {scalar : Type} `{!EqDecision scalar} `{!Dtypes scalar} {json : Type}.
Implicit Types (env : @Env scalar json).

Lemma requests_app (out1 out2 : list (@event scalar)) :
  requests (out1 ++ out2) = requests out1 ++ requests out2.
Proof. apply omap_app. Qed.

Lemma requests_print (line : string) (out : list (@event scalar)) :
  requests (Print line :: out) = requests out.
Proof. done. Qed.

Lemma requests_to_csv (path : string) df (out : list (@event scalar)) :
  requests (ToCsv path df :: out) = requests out.
Proof. done. Qed.

Ltac no_requests :=
  repeat (rewrite requests_app || rewrite requests_print
          || rewrite requests_to_csv).

(** X11. The requests of a run: [main] always requests the archive, and
    requests the feed, with a page size of 500, only when the archive
    yielded at least one frame; it makes no other request, whether it
    returns or [pd.merge] raises. *)
Theorem main_requests env :
  ∃ out result,
    main env () = (out, (), result) ∧
    requests out
    = if decide (fetched env = []) then [download_url]
      else [download_url; feed_address 500].
Proof.
  unfold main.
  destruct (fetch_usaspending_data_run env
              "FY2025_All_Contracts_Full_20250506.zip" fetch_unbound)
    as (out1 & s1 & Hfetch & Hreq1 & _).
  cbv [mbind M_bind call]. rewrite Hfetch.
  destruct (fetched env) as [|d dfs] eqn:Hfetched.
  { simpl. eexists _, _. split; [done|]. no_requests. by rewrite Hreq1. }
  rewrite bool_decide_eq_false_2, decide_False by done.
  cbv [print emit or_raise pd_concat mret M_ret].
  set (df_usaspending := mkDataFrame _ _).
  destruct (fetch_doge_contracts_requests env 500) as (out2 & -> & Hreq2).
  destruct (empty (fed env 500)) eqn:Hdoge.
  { eexists _, _. split; [done|]. no_requests. by rewrite Hreq1, Hreq2. }
  destruct (merge_data_run df_usaspending (fed env 500)
              "award_id_piid" "piid") as (out3 & -> & _ & Hreq3).
  destruct (merge_outcome _ _ _ _) as [e|merged_df].
  { eexists _, _. split; [done|]. no_requests. by rewrite Hreq1, Hreq2, Hreq3. }
  destruct (empty merged_df), (empty df_usaspending); simpl.
  all: eexists _, _; split; [done|]; no_requests.
  all: by rewrite Hreq1, Hreq2, Hreq3.
Qed.

Lemma empty_false_len (df : DataFrame scalar) :
  empty df = false → len df ≠ 0.
Proof.
  unfold empty, len. intros [Hrows _]%orb_false_iff.
  apply bool_decide_eq_false in Hrows. by destruct (rows df).
Qed.

(** X12. When the output file is written: given that the archive yielded
    frames, exactly when the feed frame is not empty, both key columns
    exist, [award_id_piid] in the concatenated archive frame and [piid]
    in the feed frame, and [pd.merge] accepts the two frames.  Otherwise
    no file is written.  The run ends with an exception exactly when
    the feed frame is not empty, both key columns exist and [pd.merge]
    does not accept the two frames. *)
Theorem main_writes_iff env df_usaspending :
  pd_concat (fetched env) = Some df_usaspending →
  ∃ out result,
    main env () = (out, (), result) ∧
    let df_doge := fed env 500 in
    let accepted (b : bool) :=
      ∃ kl kr, get_loc "award_id_piid" (columns df_usaspending) = Some kl ∧
               get_loc "piid" (columns df_doge) = Some kr ∧
               accepts df_usaspending df_doge "award_id_piid" "piid" kl kr
               = b in
    (files_written out = ["merged_award_data_by_piid.csv"]
     ∨ files_written out = []) ∧
    (files_written out = ["merged_award_data_by_piid.csv"]
     ↔ empty df_doge = false ∧ accepted true) ∧
    ((∃ e, result = inl e) ↔ empty df_doge = false ∧ accepted false).
Proof.
  intros Hconcat. destruct (main_run env) as (out & result & Hrun & Hcases).
  exists out, result. split; [done|]. rewrite Hconcat in Hcases.
  simpl in Hcases. simpl.
  destruct (empty (fed env 500)) eqn:Hdoge.
  { destruct Hcases as (-> & -> & _). naive_solver. }
  pose proof (empty_false_len _ Hdoge) as Hlen.
  destruct (merge_outcome_cases df_usaspending (fed env 500)
              "award_id_piid" "piid")
    as [[Hmissing Heq]|(kl & kr & Hkl & Hkr & Hcase)].
  { rewrite Heq in Hcases. simpl in Hcases.
    destruct Hcases as (-> & -> & _).
    assert (∀ b, ¬ ∃ kl kr,
              get_loc "award_id_piid" (columns df_usaspending) = Some kl ∧
              get_loc "piid" (columns (fed env 500)) = Some kr ∧
              accepts df_usaspending (fed env 500) "award_id_piid" "piid"
                      kl kr = b) as Hno.
    { intros b (kl & kr & Hkl & Hkr & _).
      destruct Hmissing as [Hn|Hn]; apply Hn, get_loc_elem_of; eauto. }
    split; [by right|]. split; split; try done.
    - intros [_ ?]. by destruct (Hno true).
    - by intros [? ?].
    - intros [_ ?]. by destruct (Hno false). }
  destruct (accepts _ _ _ _ _ _) eqn:Hok.
  - rewrite Hcase in Hcases.
    assert (empty (outer_join df_usaspending (fed env 500)
                     (layout_of "award_id_piid" "piid") kl kr) = false)
      as Hfull.
    { apply not_true_is_false. intros Hempty.
      apply empty_outer_join in Hempty; eauto using get_loc_lt. lia. }
    rewrite Hfull in Hcases. destruct Hcases as (-> & Hfiles & _).
    split; [by left|]. split; split; try done.
    + intros _. split; [done|]. by exists kl, kr.
    + by intros [? ?].
    + intros [_ (kl' & kr' & Hkl' & Hkr' & Hno)]. congruence.
  - destruct Hcase as [e He]. rewrite He in Hcases.
    destruct Hcases as [-> Hfiles]. rewrite Hfiles.
    split; [by right|]. split; split; try done.
    + intros [_ (kl' & kr' & Hkl' & Hkr' & Hyes)]. congruence.
    + intros _. split; [done|]. by exists kl, kr.
    + intros _. by exists e.
Qed.

End OrchestratorRuns.

(** ** The Concatenator: columns and schemas *)

Section ConcatenatorColumns.
Context {scalar : Type} `{!EqDecision scalar}.
Implicit Types (df d : DataFrame scalar) (dfs : list (DataFrame scalar)).
Implicit Types (r : list (cell scalar)) (cols cs acc : list string).









End ConcatenatorColumns.

(** ** The suffix test *)

Section Suffix.

Lemma substring_whole (s : string) : String.substring 0 (String.length s) s = s.
Proof. induction s as [|a s IH]; simpl; [done|]. by rewrite IH. Qed.

Lemma substring_app_r (p q : string) :
  String.substring (String.length p) (String.length q) (p +:+ q) = q.
Proof. induction p as [|a p IH]; simpl; [apply substring_whole|done]. Qed.

Lemma length_app_string (p q : string) :
  String.length (p +:+ q) = String.length p + String.length q.
Proof. induction p as [|a p IH]; simpl; [done|]. by rewrite IH. Qed.

Lemma substring_split (s : string) (n : nat) :
  n ≤ String.length s →
  s = String.substring 0 n s +:+ String.substring n (String.length s - n) s.
Proof.
  revert n. induction s as [|a s IH]; intros n Hn; simpl in *.
  { by destruct n. }
  destruct n as [|n]; simpl.
  - by rewrite substring_whole.
  - change (String a s
            = String a (String.substring 0 n s
                        +:+ String.substring n (String.length s - n) s)).
    f_equal. apply IH. lia.
Qed.

(** X15. The suffix test is Python's [str.endswith]: it holds exactly
    when the name is some prefix followed by the suffix.  It is case
    sensitive and needs the whole suffix at the very end. *)
Theorem endswith_iff (s suffix : string) :
  endswith s suffix = true ↔ ∃ p, s = p +:+ suffix.
Proof.
  unfold endswith. rewrite andb_true_iff, !bool_decide_eq_true. split.
  - intros [Hlen Hsub].
    exists (String.substring 0 (String.length s - String.length suffix) s).
    pose proof (substring_split s (String.length s - String.length suffix))
      as Hsplit.
    replace (String.length s - (String.length s - String.length suffix))
      with (String.length suffix) in Hsplit by lia.
    rewrite Hsub in Hsplit. apply Hsplit. lia.
  - intros [p ->]. rewrite length_app_string. split; [lia|].
    replace (String.length p + String.length suffix - String.length suffix)
      with (String.length p) by lia.
    apply substring_app_r.
Qed.

End Suffix.

(** ** The Merger: the exact row count *)

Section MergerCount.
Context {scalar : Type} `{!EqDecision scalar} `{!Dtypes scalar}.
Implicit Types (left right merged : DataFrame scalar).

Lemma sum_list_with_max_occurrences (lkeys rkeys : list (cell scalar)) :
  sum_list_with (λ k, 1 `max` occurrences k rkeys) lkeys
  = pairs lkeys rkeys + unmatched rkeys lkeys.
Proof.
  unfold pairs, unmatched.
  induction lkeys as [|k lkeys IH]; [done|]. rewrite filter_cons. simpl.
  rewrite IH. pose proof (occurrences_0 k rkeys) as H0.
  case_decide as Hk; simpl.
  - rewrite (proj2 H0 Hk). lia.
  - destruct (occurrences k rkeys) as [|n] eqn:Hn; [|lia].
    by destruct (proj1 H0 eq_refl).
Qed.

(** X16. The exact row count of the merge: every left row counts once
    per right row with its key, or once when there is none, and every
    right row whose key no left row has counts once. *)
Theorem merge_data_exact_count left right left_on right_on kl kr :
  get_loc left_on (columns left) = Some kl →
  get_loc right_on (columns right) = Some kr →
  accepts left right left_on right_on kl kr = true →
  ∃ out merged,
    merge_data left right left_on right_on () = (out, (), inr merged) ∧
    let lkeys := left_keys left right kl kr in
    let rkeys := right_keys left right kl kr in
    len merged
    = sum_list_with (λ k, 1 `max` occurrences k rkeys) lkeys
      + length (filter (.∉ lkeys) rkeys).
Proof.
  intros Hkl Hkr Hok.
  destruct (merge_data_joined left right left_on right_on kl kr)
    as [out Hm]; [done..|].
  eexists out, _. split; [done|]. simpl.
  rewrite len_outer_join. unfold indexers. rewrite length_full_outer_join.
  by rewrite sum_list_with_max_occurrences.
Qed.

Lemma compared_swap (lk rk keys : list (cell scalar)) :
  (∀ x, common lk rk x = common rk lk x) →
  compared lk rk keys = compared rk lk keys.
Proof.
  intros Hsym. unfold compared. apply list_fmap_ext.
  intros i [x|] _; simpl; [by rewrite Hsym|done].
Qed.

(** X17. Merging the other way round, with the frames and the keys
    swapped, gives a frame with the same number of rows, when
    [pd.merge] accepts the frames either way and compares the keys
    under the same dtype. *)
Theorem merge_data_swap_count left right left_on right_on kl kr :
  get_loc left_on (columns left) = Some kl →
  get_loc right_on (columns right) = Some kr →
  accepts left right left_on right_on kl kr = true →
  accepts right left right_on left_on kr kl = true →
  (∀ x, common (key_column kl left) (key_column kr right) x
        = common (key_column kr right) (key_column kl left) x) →
  ∃ out out' merged merged',
    merge_data left right left_on right_on () = (out, (), inr merged) ∧
    merge_data right left right_on left_on () = (out', (), inr merged') ∧
    len merged = len merged'.
Proof.
  intros Hkl Hkr Hok Hok' Hsym.
  destruct (merge_data_joined left right left_on right_on kl kr)
    as [out Hm]; [done..|].
  destruct (merge_data_joined right left right_on left_on kr kl)
    as [out' Hm']; [done..|].
  eexists out, out', _, _. split; [done|]. split; [done|].
  rewrite !len_outer_join. unfold indexers, left_keys, right_keys.
  rewrite !length_full_outer_join, !(compared_swap _ _ _ Hsym).
  rewrite (pairs_sym (compared _ _ (key_column kr right))). lia.
Qed.

End MergerCount.

(** ** The Merger: the order of the rows *)

Section MergerOrder.
Context {scalar : Type} `{!EqDecision scalar} `{!Dtypes scalar}.
Implicit Types (left right merged : DataFrame scalar).
Implicit Types (lkeys rkeys : list (cell scalar)).

Lemma entry_key_group lkeys rkeys (k : cell scalar) e :
  e ∈ group_entries lkeys rkeys k → entry_key lkeys rkeys e = k.
Proof.
  intros [(i & j & -> & Hi & _)|[(i & -> & Hi & _)|(j & -> & Hj & _)]]
    %elem_of_group_entries; simpl; by rewrite ?Hi, ?Hj.
Qed.

Lemma StronglySorted_groups {A B} (R : relation A) (g : A → list B)
    (key : B → A) (ks : list A) :
  StronglySorted R ks → (∀ k e, e ∈ g k → key e = k) → (∀ k, R k k) →
  StronglySorted R (key <$> (ks ≫= g)).
Proof.
  intros Hsorted Hkey Hrefl.
  induction Hsorted as [|k ks Hks IH Hall]; [constructor|].
  rewrite bind_cons, fmap_app. apply StronglySorted_app. split; [|split].
  - intros x y (e & -> & He)%list_elem_of_fmap (e' & -> & He')%list_elem_of_fmap.
    apply list_elem_of_bind in He' as (k' & He' & Hk').
    rewrite (Hkey _ _ He), (Hkey _ _ He').
    by eapply (proj1 (Forall_forall _ _) Hall).
  - pose proof (Hkey k) as Hes. revert Hes. generalize (g k). intros es Hes.
    induction es as [|e es IHes]; [constructor|].
    rewrite fmap_cons. constructor.
    + apply IHes. intros e' He'. apply Hes. by right.
    + apply Forall_fmap, Forall_forall. intros e' He'. simpl.
      rewrite (Hes e) by left. rewrite (Hes e') by (by right). apply Hrefl.
  - done.
Qed.

Lemma StronglySorted_key_groups lkeys rkeys :
  (∀ x y : scalar, key_le x y ∨ key_le y x) →
  (∀ x y z : scalar, key_le x y → key_le y z → key_le x z) →
  StronglySorted key_order (key_groups lkeys rkeys).
Proof.
  intros Htotal Htrans. unfold key_groups.
  assert (Total (λ x y : scalar, Is_true (key_le x y))) by exact Htotal.
  assert (Transitive (λ x y : scalar, Is_true (key_le x y))) by exact Htrans.
  apply StronglySorted_app. split; [|split].
  - intros k1 k2 (x & -> & _)%list_elem_of_fmap Hin.
    case_decide; [|by apply elem_of_nil in Hin].
    by apply list_elem_of_singleton in Hin as ->.
  - eapply (StronglySorted_fmap Some); [|by apply StronglySorted_merge_sort].
    by intros x y.
  - case_decide; repeat constructor.
Qed.

(** X20. The order of the merged rows: when the order of the keys is
    total and transitive, the rows come in the order of their keys, a
    row without a key after every row with one. *)
Theorem merge_data_sorted left right left_on right_on kl kr :
  get_loc left_on (columns left) = Some kl →
  get_loc right_on (columns right) = Some kr →
  accepts left right left_on right_on kl kr = true →
  (∀ x y : scalar, key_le x y ∨ key_le y x) →
  (∀ x y z : scalar, key_le x y → key_le y z → key_le x z) →
  ∃ out merged,
    merge_data left right left_on right_on () = (out, (), inr merged) ∧
    let entries := indexers left right kl kr in
    cells merged
    = join_row (layout_of left_on right_on) kl kr left right <$> entries ∧
    StronglySorted key_order
      (entry_key (left_keys left right kl kr) (right_keys left right kl kr)
         <$> entries).
Proof.
  intros Hkl Hkr Hok Htotal Htrans.
  destruct (merge_data_joined left right left_on right_on kl kr)
    as [out Hm]; [done..|].
  eexists out, _. split; [done|]. simpl.
  split; [apply cells_outer_join|].
  unfold indexers, full_outer_join. apply StronglySorted_groups.
  - by apply StronglySorted_key_groups.
  - intros k e. apply entry_key_group.
  - intros [x|]; simpl; [|done]. by destruct (Htotal x x).
Qed.

End MergerOrder.

(** ** The Archive Fetcher: the diagnostic of each failure *)

Section ArchiveFailures.
Context {scalar : Type} `{!EqDecision scalar} {json : Type}.
Implicit Types (env : @Env scalar json) (s : @fetch_locals scalar).

(** X18. The diagnostic of a failed fetch names its cause: a request
    that raises a [RequestException], or answers with a 4xx/5xx status,
    gives [Failed to download <name>: ...]; an archive that raises
    [BadZipFile] on opening gives [Failed to open zip file: <name>. ...];
    any other exception gives [An unexpected error occurred ...].  In
    each case nothing else is printed after the download line and the
    result is the empty list. *)
Theorem fetch_usaspending_data_diagnostics env file_name s0 :
  let downloading :=
    Print ("Downloading " +:+ file_name +:+ " from USAspending...") in
  let failed out :=
    ∃ s, fetch_usaspending_data env file_name s0
         = ([downloading; Get download_url; Print out], s, inr []) in
  (∀ msg, requests_get env download_url = inl (RequestException msg) →
     failed ("Failed to download " +:+ file_name +:+ ": " +:+ msg)) ∧
  (∀ response, requests_get env download_url = inr response →
     400 ≤ status_code response < 600 →
     ∃ msg, failed ("Failed to download " +:+ file_name +:+ ": " +:+ msg)) ∧
  (∀ response msg, requests_get env download_url = inr response →
     ¬ 400 ≤ status_code response < 600 →
     zipfile_ZipFile env (content response) = inl (BadZipFile msg) →
     failed ("Failed to open zip file: " +:+ file_name
             +:+ ". It might be corrupted or not a zip file.")) ∧
  (∀ response msg, requests_get env download_url = inr response →
     ¬ 400 ≤ status_code response < 600 →
     zipfile_ZipFile env (content response) = inl (OtherException msg) →
     failed ("An unexpected error occurred during download or extraction: "
             +:+ msg)).
Proof.
  simpl. unfold fetch_usaspending_data, get.
  cbv [mbind M_bind modify print emit try_except lift mret M_ret gets].
  simpl. split; [|split; [|split]].
  - intros msg ->. simpl. eauto.
  - intros response -> Hst. simpl.
    destruct (raise_for_status_run (scalar:=scalar) response
                (set_dataframes [] s0))
      as [(e & -> & _)|[_ ?]]; [|done]. simpl. eauto.
  - intros response msg -> Hst Hzip. simpl.
    destruct (raise_for_status_run (scalar:=scalar) response
                (set_dataframes [] s0))
      as [(e & _ & ?)|[-> _]]; [done|]. simpl. rewrite Hzip. simpl. eauto.
  - intros response msg -> Hst Hzip. simpl.
    destruct (raise_for_status_run (scalar:=scalar) response
                (set_dataframes [] s0))
      as [(e & _ & ?)|[-> _]]; [done|]. simpl. rewrite Hzip. simpl. eauto.
Qed.

End ArchiveFailures.

(** ** The further properties at the sample inputs *)

Lemma merge_data_sound_witness :
  get_loc "award_id_piid" (columns Samples.awards) = Some 0 ∧
  get_loc "piid" (columns Samples.savings) = Some 0 ∧
  accepts Samples.awards Samples.savings "award_id_piid" "piid" 0 0 = true ∧
  ∃ out merged,
    merge_data Samples.awards Samples.savings "award_id_piid" "piid" ()
    = (out, (), inr merged) ∧
    let key := as_key Samples.awards Samples.savings 0 0 in
    ∀ o, o ∈ cells merged →
      (∃ l r, l ∈ cells Samples.awards ∧ r ∈ cells Samples.savings ∧
              key (at_pos l 0) = key (at_pos r 0) ∧
              o = left_block BothKeys 0 0 Samples.awards Samples.savings l
                  ++ right_block BothKeys 0 0 Samples.awards Samples.savings r) ∨
      (∃ l, l ∈ cells Samples.awards ∧
            (key (at_pos l 0) ∉ right_keys Samples.awards Samples.savings 0 0) ∧
            o = left_block BothKeys 0 0 Samples.awards Samples.savings l
                ++ right_blank BothKeys Samples.savings) ∨
      (∃ r, r ∈ cells Samples.savings ∧
            (key (at_pos r 0) ∉ left_keys Samples.awards Samples.savings 0 0) ∧
            o = left_blank BothKeys 0 0 Samples.awards Samples.savings (at_pos r 0)
                ++ right_block BothKeys 0 0 Samples.awards Samples.savings r).
Proof.
  split; [reflexivity|]. split; [reflexivity|]. split; [reflexivity|].
  exact (merge_data_sound Samples.awards Samples.savings
           "award_id_piid" "piid" 0 0 eq_refl eq_refl eq_refl).
Defined.

Lemma merge_data_well_formed_witness :
  rectangular Samples.awards ∧ rectangular Samples.savings ∧
  get_loc "award_id_piid" (columns Samples.awards) = Some 0 ∧
  get_loc "piid" (columns Samples.savings) = Some 0 ∧
  accepts Samples.awards Samples.savings "award_id_piid" "piid" 0 0 = true ∧
  ∃ out merged,
    merge_data Samples.awards Samples.savings "award_id_piid" "piid" ()
    = (out, (), inr merged) ∧
    rectangular merged ∧
    length (columns merged) = 4 ∧
    index merged = seq 0 (len merged).
Proof.
  assert (rectangular Samples.awards) as Hl by (vm_compute; repeat constructor).
  assert (rectangular Samples.savings) as Hr by (vm_compute; repeat constructor).
  split; [exact Hl|]. split; [exact Hr|].
  split; [reflexivity|]. split; [reflexivity|]. split; [reflexivity|].
  exact (merge_data_well_formed Samples.awards Samples.savings
           "award_id_piid" "piid" 0 0 Hl Hr eq_refl eq_refl eq_refl).
Defined.

Lemma merge_data_columns_disjoint_witness :
  get_loc "award_id_piid" (columns Samples.awards) = Some 0 ∧
  get_loc "piid" (columns Samples.savings) = Some 0 ∧
  accepts Samples.awards Samples.savings "award_id_piid" "piid" 0 0 = true ∧
  (∀ c, c ∈ columns Samples.awards → c ∉ columns Samples.savings) ∧
  ∃ out merged,
    merge_data Samples.awards Samples.savings "award_id_piid" "piid" ()
    = (out, (), inr merged) ∧
    columns merged = columns Samples.awards ++ columns Samples.savings.
Proof.
  assert (∀ c, c ∈ columns Samples.awards → c ∉ columns Samples.savings)
    as Hdisjoint.
  { apply Forall_forall. apply (bool_decide_unpack _). vm_compute. exact I. }
  split; [reflexivity|]. split; [reflexivity|]. split; [reflexivity|].
  split; [exact Hdisjoint|].
  exact (merge_data_columns_disjoint Samples.awards Samples.savings
           "award_id_piid" "piid" 0 0 eq_refl eq_refl eq_refl Hdisjoint).
Defined.

Lemma merge_data_one_side_empty_witness :
  get_loc "award_id_piid" (columns Samples.header_only) = Some 0 ∧
  get_loc "award_id_piid" (columns Samples.unsorted_savings) = Some 0 ∧
  accepts Samples.header_only Samples.unsorted_savings "award_id_piid" "award_id_piid" 0 0 = true ∧
  ∃ out merged,
    merge_data Samples.header_only Samples.unsorted_savings
      "award_id_piid" "award_id_piid" ()
    = (out, (), inr merged) ∧
    (len Samples.header_only = 0 →
     cells merged
     ≡ₚ (λ r, left_blank SharedKey 0 0 Samples.header_only
                Samples.unsorted_savings (at_pos r 0) ++ delete 0 r)
        <$> cells Samples.unsorted_savings) ∧
    (len Samples.unsorted_savings = 0 →
     cells merged
     ≡ₚ (λ l, l ++ right_blank SharedKey Samples.unsorted_savings)
        <$> cells Samples.header_only).
Proof.
  split; [reflexivity|]. split; [reflexivity|]. split; [reflexivity|].
  exact (merge_data_one_side_empty Samples.header_only Samples.unsorted_savings
           "award_id_piid" "award_id_piid" 0 0 eq_refl eq_refl eq_refl).
Defined.

Lemma merge_data_exact_count_witness :
  get_loc "award_id_piid" (columns Samples.repeated_awards) = Some 0 ∧
  get_loc "piid" (columns Samples.repeated_savings) = Some 0 ∧
  accepts Samples.repeated_awards Samples.repeated_savings "award_id_piid" "piid" 0 0 = true ∧
  ∃ out merged,
    merge_data Samples.repeated_awards Samples.repeated_savings
      "award_id_piid" "piid" ()
    = (out, (), inr merged) ∧
    len merged = 9.
Proof.
  split; [reflexivity|]. split; [reflexivity|]. split; [reflexivity|].
  exact (merge_data_exact_count Samples.repeated_awards Samples.repeated_savings
           "award_id_piid" "piid" 0 0 eq_refl eq_refl eq_refl).
Defined.

Lemma merge_data_swap_count_witness :
  get_loc "award_id_piid" (columns Samples.awards) = Some 0 ∧
  get_loc "piid" (columns Samples.savings) = Some 0 ∧
  accepts Samples.awards Samples.savings "award_id_piid" "piid" 0 0 = true ∧
  accepts Samples.savings Samples.awards "piid" "award_id_piid" 0 0 = true ∧
  (∀ x, common (key_column 0 Samples.awards) (key_column 0 Samples.savings) x
        = common (key_column 0 Samples.savings) (key_column 0 Samples.awards) x) ∧
  ∃ out out' merged merged',
    merge_data Samples.awards Samples.savings "award_id_piid" "piid" ()
    = (out, (), inr merged) ∧
    merge_data Samples.savings Samples.awards "piid" "award_id_piid" ()
    = (out', (), inr merged') ∧
    len merged = len merged'.
Proof.
  assert (∀ x, common (key_column 0 Samples.awards)
                      (key_column 0 Samples.savings) x
               = common (key_column 0 Samples.savings)
                        (key_column 0 Samples.awards) x) as Hsym
    by (intros x; reflexivity).
  split; [reflexivity|]. split; [reflexivity|]. split; [reflexivity|].
  split; [reflexivity|]. split; [exact Hsym|].
  exact (merge_data_swap_count Samples.awards Samples.savings
           "award_id_piid" "piid" 0 0 eq_refl eq_refl eq_refl eq_refl Hsym).
Defined.

Lemma merge_data_refused_witness :
  get_loc "award_id_piid" (columns Samples.numbered_awards) = Some 0 ∧
  get_loc "piid" (columns Samples.lettered_savings) = Some 0 ∧
  accepts Samples.numbered_awards Samples.lettered_savings "award_id_piid" "piid" 0 0 = false ∧
  ∃ e,
    merge_data Samples.numbered_awards Samples.lettered_savings
      "award_id_piid" "piid" ()
    = ([Print "Merging datasets on 'award_id_piid' (USAspending) and 'piid' (DOGE)..."],
       (), inl e).
Proof.
  split; [reflexivity|]. split; [reflexivity|]. split; [reflexivity|].
  exact (merge_data_refused Samples.numbered_awards
           Samples.lettered_savings "award_id_piid" "piid" 0 0
           eq_refl eq_refl eq_refl).
Defined.

Lemma merge_data_sorted_witness :
  get_loc "award_id_piid" (columns Samples.header_only) = Some 0 ∧
  get_loc "award_id_piid" (columns Samples.unsorted_savings) = Some 0 ∧
  accepts Samples.header_only Samples.unsorted_savings
    "award_id_piid" "award_id_piid" 0 0 = true ∧
  (∀ x y : string, key_le x y ∨ key_le y x) ∧
  (∀ x y z : string, key_le x y → key_le y z → key_le x z) ∧
  ∃ out merged,
    merge_data Samples.header_only Samples.unsorted_savings
      "award_id_piid" "award_id_piid" ()
    = (out, (), inr merged) ∧
    let entries := indexers Samples.header_only Samples.unsorted_savings 0 0 in
    cells merged
    = join_row SharedKey 0 0 Samples.header_only Samples.unsorted_savings
        <$> entries ∧
    StronglySorted key_order
      (entry_key (left_keys Samples.header_only Samples.unsorted_savings 0 0)
                 (right_keys Samples.header_only Samples.unsorted_savings 0 0)
         <$> entries).
Proof.
  assert (∀ x y : string, key_le x y ∨ key_le y x) as Htotal
    by (intros x y; apply (total String.le)).
  assert (∀ x y z : string, key_le x y → key_le y z → key_le x z) as Htrans
    by (intros x y z; apply (transitivity (R:=String.le))).
  split; [reflexivity|]. split; [reflexivity|]. split; [reflexivity|].
  split; [exact Htotal|]. split; [exact Htrans|].
  exact (merge_data_sorted Samples.header_only Samples.unsorted_savings
           "award_id_piid" "award_id_piid" 0 0 eq_refl eq_refl eq_refl
           Htotal Htrans).
Defined.

Lemma fetch_usaspending_data_log_witness :
  let response := mkResponse 200 "OK" download_url [] in
  requests_get Samples.network download_url = inr response ∧
  ¬ 400 ≤ status_code response < 600 ∧
  zipfile_ZipFile Samples.network (content response) = inr Samples.archive ∧
  ∃ s,
    fetch_usaspending_data Samples.network "archive.zip" fetch_unbound
    = ([Print "Downloading archive.zip from USAspending...";
        Get download_url;
        Print "Extracting and reading data/a.csv";
        Print "Extracting and reading b.csv";
        Print "Error reading CSV file b.csv: truncated"],
       s, inr [Samples.awards]).
Proof.
  assert (¬ 400 ≤ 200 < 600) as Hst by lia.
  split; [reflexivity|]. split; [exact Hst|]. split; [reflexivity|].
  exact (fetch_usaspending_data_log Samples.network "archive.zip"
           fetch_unbound (mkResponse 200 "OK" download_url [])
           Samples.archive eq_refl Hst eq_refl).
Defined.

Lemma fetch_usaspending_data_no_csv_line_witness :
  let response := mkResponse 200 "OK" download_url [] in
  requests_get Samples.network_without_csv download_url = inr response ∧
  ¬ 400 ≤ status_code response < 600 ∧
  zipfile_ZipFile Samples.network_without_csv (content response)
  = inr Samples.notes_only ∧
  ∃ out s dfs,
    fetch_usaspending_data Samples.network_without_csv "archive.zip"
      fetch_unbound
    = (out, s, inr dfs) ∧
    (Print ("No CSV file found in " +:+ "archive.zip") ∈ out ↔
     Forall (λ file, endswith file ".csv" = false)
            (namelist Samples.notes_only)) ∧
    (Forall (λ file, endswith file ".csv" = true →
                     ∃ e, read_member Samples.network_without_csv
                            Samples.notes_only file = inl e)
            (namelist Samples.notes_only) →
     dfs = []).
Proof.
  assert (¬ 400 ≤ 200 < 600) as Hst by lia.
  split; [reflexivity|]. split; [exact Hst|]. split; [reflexivity|].
  exact (fetch_usaspending_data_no_csv_line Samples.network_without_csv
           "archive.zip" fetch_unbound (mkResponse 200 "OK" download_url [])
           Samples.notes_only eq_refl Hst eq_refl).
Defined.

Lemma fetch_usaspending_data_count_witness :
  let response := mkResponse 200 "OK" download_url [] in
  requests_get Samples.network download_url = inr response ∧
  ¬ 400 ≤ status_code response < 600 ∧
  zipfile_ZipFile Samples.network (content response) = inr Samples.archive ∧
  ∃ out s dfs,
    fetch_usaspending_data Samples.network "archive.zip" fetch_unbound
    = (out, s, inr dfs) ∧
    length dfs ≤ 2 ∧
    (length dfs = 2 ↔
     Forall (λ file, ∃ df, read_member Samples.network Samples.archive file
                           = inr df)
            ["data/a.csv"; "b.csv"]).
Proof.
  assert (¬ 400 ≤ 200 < 600) as Hst by lia.
  split; [reflexivity|]. split; [exact Hst|]. split; [reflexivity|].
  exact (fetch_usaspending_data_count Samples.network "archive.zip"
           fetch_unbound (mkResponse 200 "OK" download_url [])
           Samples.archive eq_refl Hst eq_refl).
Defined.

Lemma fetch_doge_contracts_success_witness :
  let response := mkResponse 200 "OK" (feed_address 500) [] in
  requests_get Samples.network (feed_address 500) = inr response ∧
  ¬ 400 ≤ status_code response < 600 ∧
  json_loads Samples.network (content response) = inr () ∧
  pd_DataFrame Samples.network () = inr Samples.savings ∧
  fetch_doge_contracts Samples.network 500 ()
  = ([Print "Fetching DOGE contracts from https://api.doge.gov/savings/contracts?per_page=500 (per_page=500)...";
      Get "https://api.doge.gov/savings/contracts?per_page=500";
      Print "Retrieved 2 contracts from DOGE API."],
     (), inr Samples.savings).
Proof.
  assert (¬ 400 ≤ 200 < 600) as Hst by lia.
  split; [reflexivity|]. split; [exact Hst|].
  split; [reflexivity|]. split; [reflexivity|].
  exact (fetch_doge_contracts_success Samples.network 500
           (mkResponse 200 "OK" (feed_address 500) []) () Samples.savings
           eq_refl Hst eq_refl eq_refl).
Defined.

Lemma main_writes_iff_witness :
  pd_concat (fetched Samples.network_mixed_keys)
  = Some Samples.numbered_awards ∧
  ∃ out result,
    main Samples.network_mixed_keys () = (out, (), result) ∧
    let df_doge := fed Samples.network_mixed_keys 500 in
    let accepted (b : bool) :=
      ∃ kl kr, get_loc "award_id_piid" (columns Samples.numbered_awards)
               = Some kl ∧
               get_loc "piid" (columns df_doge) = Some kr ∧
               accepts Samples.numbered_awards df_doge "award_id_piid" "piid"
                       kl kr
               = b in
    (files_written out = ["merged_award_data_by_piid.csv"]
     ∨ files_written out = []) ∧
    (files_written out = ["merged_award_data_by_piid.csv"]
     ↔ empty df_doge = false ∧ accepted true) ∧
    ((∃ e, result = inl e) ↔ empty df_doge = false ∧ accepted false).
Proof.
  split; [reflexivity|].
  exact (main_writes_iff Samples.network_mixed_keys Samples.numbered_awards
           eq_refl).
Defined.


